(** * Legal Document Simplifier: chunker, generation client, chunk pipeline

    A shallow embedding of [main.py]: the word-based chunker [chunk_text],
    the retrying generation client [simplify_text_chunk], the sequential
    pipeline [process_chunks_with_rate_limit] and the two endpoints
    [simplify_document] and [chat_with_document], with the properties the
    specification states about them. *)

From Stdlib Require Import ZArith NArith List Bool Lia String Ascii Strings.Byte
  DecimalString HexadecimalString.
Import ListNotations.

Local Open Scope Z_scope.

(** ** Text

    A Python [str] is a sequence of Unicode code points. *)

Definition char := N.
Definition str := list char.

(** A string literal of the source. *)
Definition lit (s : string) : str := map N_of_ascii (list_ascii_of_string s).

(** [len(s)], a Python [int]. *)
Definition len (s : str) : Z := Z.of_nat (List.length s).

(** [c.isspace()] for one code point: the white-space table of CPython,
    which [str.split()] and [str.strip()] use. *)
Definition isspace (c : char) : bool :=
  ((0x09 <=? c) && (c <=? 0x0D) || (0x1C <=? c) && (c <=? 0x20)
   || (c =? 0x85) || (c =? 0xA0) || (c =? 0x1680)
   || (0x2000 <=? c) && (c <=? 0x200A)
   || (c =? 0x2028) || (c =? 0x2029) || (c =? 0x202F)
   || (c =? 0x205F) || (c =? 0x3000))%N.

(** [s.split()]: the maximal runs of non-white-space characters, in order.
    [cur] is the run being read. *)
Fixpoint split_from (cur : str) (s : str) : list str :=
  match s with
  | [] => match cur with [] => [] | _ :: _ => [cur] end
  | c :: s' =>
      if isspace c then
        match cur with
        | [] => split_from [] s'
        | _ :: _ => cur :: split_from [] s'
        end
      else split_from (cur ++ [c]) s'
  end.

Definition split (s : str) : list str := split_from [] s.

(** [sep.join(l)]. *)
Fixpoint join (sep : str) (l : list str) : str :=
  match l with
  | [] => []
  | x :: rest =>
      match rest with
      | [] => x
      | _ :: _ => x ++ sep ++ join sep rest
      end
  end.

(** [s.strip()]: white space removed at both ends. *)
Fixpoint lstrip (s : str) : str :=
  match s with
  | [] => []
  | c :: s' => if isspace c then lstrip s' else s
  end.

Definition rstrip (s : str) : str := rev (lstrip (rev s)).

Definition strip (s : str) : str := rstrip (lstrip s).

Definition space : str := lit " ".

(** ** The chunker *)

Module Chunker.

(** The three local variables of [chunk_text] that its loop updates. *)
Record state := mk_state {
  chunks : list str;
  current_chunk : list str;
  current_size : Z
}.

(** One iteration of [for word in words]. *)
Definition step (chunk_size : Z) (st : state) (word : str) : state :=
  let word_size := len word + 1 in
  if current_size st + word_size >? chunk_size then
    mk_state (chunks st ++ [join space (current_chunk st)]) [word] word_size
  else
    mk_state (chunks st) (current_chunk st ++ [word])
             (current_size st + word_size).

(** The statements after the loop: [if current_chunk: chunks.append(...)]. *)
Definition finish (st : state) : list str :=
  match current_chunk st with
  | [] => chunks st
  | _ :: _ => chunks st ++ [join space (current_chunk st)]
  end.

Definition chunk_text (text : str) (chunk_size : Z) : list str :=
  let words := split text in
  finish (fold_left (step chunk_size) words (mk_state [] [] 0)).

(** The word groups the loop forms, as a function of the open group, its
    size and the words still to read. [chunk_text] is shown below to be the
    groups joined with single spaces. *)
Fixpoint group_words (chunk_size : Z) (cur : list str) (size : Z)
    (words : list str) : list (list str) :=
  match words with
  | [] => match cur with [] => [] | _ :: _ => [cur] end
  | w :: ws =>
      if size + (len w + 1) >? chunk_size then
        cur :: group_words chunk_size [w] (len w + 1) ws
      else group_words chunk_size (cur ++ [w]) (size + (len w + 1)) ws
  end.

End Chunker.

Definition chunk_text := Chunker.chunk_text.
Definition default_chunk_size : Z := 15000.

(** [a == b] on strings. *)
Fixpoint str_eqb (a b : str) : bool :=
  match a, b with
  | [], [] => true
  | x :: a', y :: b' => N.eqb x y && str_eqb a' b'
  | _, _ => false
  end.

(** [str(n)] for an [int]. *)
Definition str_of_int (n : Z) : str :=
  lit (DecimalString.NilEmpty.string_of_int (Z.to_int n)).

(** An address as [%#x] prints it: [0x] and the lower-case hexadecimal
    digits. *)
Definition hex_of_address (a : N) : str :=
  lit "0x" ++ lit (HexadecimalString.NilZero.string_of_uint (N.to_hex_uint a)).

(** ** Exceptions

    Every exception the service handles is an instance of [Exception]:
    FastAPI's [HTTPException], tenacity's [RetryError], which holds the
    future of the last attempt (its address, [id(future)], and the exception
    it finished with), and any other exception, kept as its class name and
    its message. *)
Inductive exn :=
| HTTPException (status_code : Z) (detail : str)
| RetryError (future_at : N) (last_attempt : exn)
| PyException (cls : str) (msg : str).

Definition class_name (e : exn) : str :=
  match e with
  | HTTPException _ _ => lit "HTTPException"
  | RetryError _ _ => lit "RetryError"
  | PyException cls _ => cls
  end.

(** [str(e)]. Starlette prints an [HTTPException] as [status: detail];
    tenacity prints a [RetryError] as the class name followed by the
    future of the last attempt, which prints as its address, its state and
    the class of its exception. *)
Definition str_exn (e : exn) : str :=
  match e with
  | HTTPException status_code detail =>
      str_of_int status_code ++ lit ": " ++ detail
  | RetryError future_at last =>
      lit "RetryError[<Future at " ++ hex_of_address future_at
        ++ lit " state=finished raised " ++ class_name last ++ lit ">]"
  | PyException _ msg => msg
  end.

(** The exception of [model.generate_content] when [model] is [None]. *)
Definition none_has_no_generate_content : exn :=
  PyException (lit "AttributeError")
    (lit "'NoneType' object has no attribute 'generate_content'").

(** ** The world the service runs in *)

(** The generation backend: [model.generate_content(prompt).text] either
    yields a text or raises, and may depend on and change a state of the
    backend (quota, load, earlier calls). *)
Class GenerativeModel := {
  backend : Type;
  generate_content : str -> backend -> (exn + str) * backend
}.

(** The document-ingestion collaborators: [magic.from_buffer(.., mime=True)],
    [PdfReader] with [extract_text] on every page (the page texts, or the
    exception raised on the way), and [bytes.decode("utf-8")], which is
    [None] on a [UnicodeDecodeError]. *)
Class Ingestion := {
  from_buffer : list byte -> str;
  pdf_pages : list byte -> exn + list str;
  decode_utf8 : list byte -> option str
}.

(** [content.decode("latin-1")]: every byte is the code point of its value. *)
Definition decode_latin1 (content : list byte) : exn + str :=
  inr (map Byte.to_N content).

(** What the service does to the outside, in order. [GenerateCall] records
    that [model.generate_content(prompt)] was evaluated, whether or not a
    model is there to answer; [Sleep lo hi] is a [time.sleep] of a delay
    between [lo] and [hi] seconds. The [print] calls are left out. *)
Inductive event :=
| Sleep (lo hi : Z)
| GenerateCall (prompt : str)
| ReadUpload
| DetectType
| ExtractPdf
| DecodeText.

(** The Python runtime, as far as the service shows it: the address of the
    future that tenacity makes for the attempt that ends when the service
    has done [tr]. Nothing is known of it; every property holds for every
    choice of addresses. *)
Class Runtime := {
  future_address : list event -> N
}.

Section Service.

Context {G : GenerativeModel} {I : Ingestion}.

(** The global [model] ([None] when its construction failed at startup,
    otherwise the backend in its current state) and the trace so far. *)
Record World := mk_world {
  model : option backend;
  trace : list event
}.

(** Computations that read and change the world and return or raise. A
    raised exception keeps the changes made before it. *)
Definition M (A : Type) : Type := World -> (exn + A) * World.

Definition ret {A} (a : A) : M A := fun w => (inr a, w).

Definition raise {A} (e : exn) : M A := fun w => (inl e, w).

Definition bind {A B} (m : M A) (k : A -> M B) : M B :=
  fun w =>
    match m w with
    | (inr a, w') => k a w'
    | (inl e, w') => (inl e, w')
    end.

(** [try: body  except Exception as e: handler e]. *)
Definition try_except {A} (body : M A) (handler : exn -> M A) : M A :=
  fun w =>
    match body w with
    | (inr a, w') => (inr a, w')
    | (inl e, w') => handler e w'
    end.

Definition emit (ev : event) : M unit :=
  fun w => (inr tt, mk_world (model w) (trace w ++ [ev])).

(** [time.sleep(random.uniform(lo, hi))]. *)
Definition sleep_uniform (lo hi : Z) : M unit := emit (Sleep lo hi).

End Service.

Arguments World {G}.
Arguments M {G} A.

Declare Scope service_scope.
Delimit Scope service_scope with service.
Notation "x <- m ;; k" := (bind m (fun x => k))
  (at level 61, m at next level, right associativity) : service_scope.
Notation "m ;; k" := (bind m (fun _ => k))
  (at level 61, right associativity) : service_scope.

(** ** The generation client *)

Section GenerationClient.

Context {G : GenerativeModel} {R : Runtime}.

Local Open Scope service_scope.

(** The f-string of [simplify_text_chunk]. *)
Definition simplify_prompt (chunk : str) : str :=
  lit "You are a legal document simplifier. Simplify the following legal document section into easy-to-understand language while preserving its legal essence. Use simple terms and clear explanations.

Document section:
" ++ chunk.

(** What [model.generate_content(prompt).text] gives for a value of the
    global [model], and the model afterwards. *)
Definition call_model (prompt : str) (m : option backend)
    : (exn + str) * option backend :=
  match m with
  | None => (inl none_has_no_generate_content, None)
  | Some b =>
      let (r, b') := generate_content prompt b in (r, Some b')
  end.

(** [model.generate_content(prompt).text] on the global [model]. *)
Definition model_generate_content (prompt : str) : M str :=
  fun w =>
    let (r, m') := call_model prompt (model w) in
    (r, mk_world m' (trace w ++ [GenerateCall prompt])).

(** The body of [simplify_text_chunk], one attempt: on any exception it
    sleeps 2 to 5 seconds and raises the exception again. *)
Definition simplify_text_chunk_attempt (chunk : str) : M str :=
  try_except
    (response <- model_generate_content (simplify_prompt chunk) ;;
     ret response)
    (fun e => sleep_uniform 2 5 ;; raise e).

(** tenacity's [wait_exponential(multiplier, min, max)] before the attempt
    after [attempt_number]. *)
Definition wait_exponential (multiplier min max attempt_number : Z) : Z :=
  Z.max (Z.max 0 min) (Z.min (multiplier * 2 ^ (attempt_number - 1)) max).

(** tenacity's loop for [retry(stop=stop_after_attempt(n), wait=...,
    retry=retry_if_exception_type(Exception))]: [attempts_left] counts the
    attempts that may still follow attempt [attempt_number]. A failure of
    the last one raises [RetryError] holding that failure. *)
Fixpoint retrying {A} (attempts_left : nat) (attempt_number : Z) (fn : M A)
    : M A :=
  fun w =>
    match fn w with
    | (inr a, w') => (inr a, w')
    | (inl e, w') =>
        match attempts_left with
        | O => (inl (RetryError (future_address (trace w')) e), w')
        | S attempts_left' =>
            let d := wait_exponential 1 4 10 attempt_number in
            (emit (Sleep d d) ;; retrying attempts_left' (attempt_number + 1) fn) w'
        end
    end.

Definition stop_after_attempt : nat := 3.

(** [simplify_text_chunk] as decorated. *)
Definition simplify_text_chunk (chunk : str) : M str :=
  retrying (stop_after_attempt - 1) 1 (simplify_text_chunk_attempt chunk).

(** ** The chunk pipeline *)

(** The marker appended for a sub-chunk whose generation failed. *)
Definition error_marker (sub_e : exn) : str :=
  lit "[Error processing this section: " ++ str_exn sub_e ++ lit "]".

(** [for sub_chunk in sub_chunks] of the fallback, on the list
    [simplified_chunks] built so far. *)
Fixpoint process_sub_chunks (sub_chunks : list str)
    (simplified_chunks : list str) : M (list str) :=
  match sub_chunks with
  | [] => ret simplified_chunks
  | sub_chunk :: rest =>
      simplified_chunks' <-
        try_except
          (sleep_uniform 1 2 ;;
           simplified_sub_chunk <- simplify_text_chunk sub_chunk ;;
           ret (simplified_chunks ++ [simplified_sub_chunk]))
          (fun sub_e => ret (simplified_chunks ++ [error_marker sub_e])) ;;
      process_sub_chunks rest simplified_chunks'
  end.

(** [for i, chunk in enumerate(chunks, 1)], from position [i] on. *)
Fixpoint process_chunks_from (i : Z) (chunks : list str)
    (simplified_chunks : list str) : M (list str) :=
  match chunks with
  | [] => ret simplified_chunks
  | chunk :: rest =>
      simplified_chunks' <-
        try_except
          ((if i >? 1 then sleep_uniform 1 3 else ret tt) ;;
           simplified_chunk <- simplify_text_chunk chunk ;;
           ret (simplified_chunks ++ [simplified_chunk]))
          (fun e =>
             let sub_chunks := chunk_text chunk 8000 in
             process_sub_chunks sub_chunks simplified_chunks) ;;
      process_chunks_from (i + 1) rest simplified_chunks'
  end.

Definition process_chunks_with_rate_limit (chunks : list str) : M (list str) :=
  process_chunks_from 1 chunks [].

(** The world after the pacing sleep before chunk [i]. *)
Definition paced (i : Z) (w : World) : World :=
  if i >? 1 then mk_world (model w) (trace w ++ [Sleep 1 3]) else w.

(** The world after the pacing sleep before a sub-chunk. *)
Definition sub_paced (w : World) : World :=
  mk_world (model w) (trace w ++ [Sleep 1 2]).

(** The pipeline as the specification words it. The fallback of one chunk:
    its sub-chunks in order, each after its pacing sleep, a success giving
    its fragment and a failure exactly one error marker in its place, the
    text [[Error processing this section: <cause>]] with the raised
    exception printed as the cause. *)
Inductive fallback_run : list str -> World -> list str -> World -> Prop :=
| fallback_done w : fallback_run [] w [] w
| fallback_success sub_chunk rest w fragment w1 out w2 :
    simplify_text_chunk sub_chunk (sub_paced w) = (inr fragment, w1) ->
    fallback_run rest w1 out w2 ->
    fallback_run (sub_chunk :: rest) w (fragment :: out) w2
| fallback_failure sub_chunk rest w cause w1 out w2 :
    simplify_text_chunk sub_chunk (sub_paced w) = (inl cause, w1) ->
    fallback_run rest w1 out w2 ->
    fallback_run (sub_chunk :: rest) w
      ((lit "[Error processing this section: " ++ str_exn cause ++ lit "]")
         :: out) w2.

(** The chunks in order from position [i]: a success gives the chunk's sole
    fragment, a failure the fragments of its fallback with bound 8000, and
    in both cases the next chunk follows. *)
Inductive pipeline_run : Z -> list str -> World -> list str -> World -> Prop :=
| pipeline_done i w : pipeline_run i [] w [] w
| pipeline_success i chunk rest w fragment w1 out w2 :
    simplify_text_chunk chunk (paced i w) = (inr fragment, w1) ->
    pipeline_run (i + 1) rest w1 out w2 ->
    pipeline_run i (chunk :: rest) w (fragment :: out) w2
| pipeline_fallback i chunk rest w cause w1 fragments w2 out w3 :
    simplify_text_chunk chunk (paced i w) = (inl cause, w1) ->
    fallback_run (chunk_text chunk 8000) w1 fragments w2 ->
    pipeline_run (i + 1) rest w2 out w3 ->
    pipeline_run i (chunk :: rest) w (fragments ++ out) w3.

End GenerationClient.

(** ** The endpoints *)

Section Endpoints.

Context {G : GenerativeModel} {R : Runtime} {I : Ingestion}.

Local Open Scope service_scope.

Definition blank_line : str := [10; 10]%N.

(** [read_pdf_file]: the texts of the pages that are not blank, joined by a
    blank line; any exception on the way becomes an [HTTPException] 400.
    The temporary file it writes and removes is left out. *)
Definition read_pdf_file (file_content : list byte) : M str :=
  try_except
    (emit ExtractPdf ;;
     match pdf_pages file_content with
     | inl e => raise e
     | inr pages =>
         let text_parts :=
           filter (fun text => negb (str_eqb (strip text) [])) pages in
         ret (join blank_line text_parts)
     end)
    (fun e =>
       raise (HTTPException 400
         (lit "Could not read the PDF document. Please ensure it's a valid PDF file."))).

(** The body of the [try] of [simplify_document]. *)
Definition simplify_document_body (file : list byte) : M (str * str) :=
  fun w =>
    match model w with
    | None =>
        raise (HTTPException 500
          (lit "Gemini model not initialized properly. Please check your API key and model configuration.")) w
    | Some _ =>
        (emit ReadUpload ;;
         let content := file in
         emit DetectType ;;
         let file_type := from_buffer content in
         document_text <-
           (if str_eqb file_type (lit "application/pdf") then
              read_pdf_file content
            else if str_eqb file_type (lit "text/plain") then
              emit DecodeText ;;
              match decode_utf8 content with
              | Some text => ret text
              | None =>
                  match decode_latin1 content with
                  | inr text => ret text
                  | inl _ =>
                      raise (HTTPException 400
                        (lit "Could not decode text file content. Please ensure it's a valid text file."))
                  end
              end
            else
              raise (HTTPException 400
                (lit "Unsupported file type. Please upload a .txt or .pdf file."))) ;;
         if str_eqb (strip document_text) [] then
           raise (HTTPException 400 (lit "The uploaded file is empty"))
         else
           let chunks := chunk_text document_text default_chunk_size in
           simplified_chunks <- process_chunks_with_rate_limit chunks ;;
           let simplified_text := join blank_line simplified_chunks in
           ret (document_text, simplified_text)) w
    end.

(** [simplify_document]: the body under [except Exception as e], which
    raises [HTTPException(status_code=500, detail=str(e))]. The result
    is the pair of the [original] and [simplified] fields. *)
Definition simplify_document (file : list byte) : M (str * str) :=
  try_except (simplify_document_body file)
    (fun e => raise (HTTPException 500 (str_exn e))).

(** The f-string of [chat_with_document]; an absent [document_content]
    prints as [None]. *)
Definition chat_prompt (message : str) (document_content : option str) : str :=
  lit "You are a helpful legal assistant. Answer the following question about the legal document in a clear and concise manner.

Question: " ++ message ++ lit "

Document content:
" ++ match document_content with Some d => d | None => lit "None" end.

(** [chat_with_document]: the result is the [response] field. *)
Definition chat_with_document (message : str) (document_content : option str)
    : M str :=
  try_except
    (let prompt := chat_prompt message document_content in
     response <- simplify_text_chunk prompt ;;
     ret response)
    (fun e => raise (HTTPException 500 (str_exn e))).

(** The status of the HTTP response FastAPI sends: 200 with the returned
    value, the status of a raised [HTTPException], 500 for another
    exception. *)
Definition response_status {A} (r : exn + A) : Z :=
  match r with
  | inr _ => 200
  | inl (HTTPException status_code _) => status_code
  | inl _ => 500
  end.

(** The [detail] of the response of a raised [HTTPException]. *)
Definition response_detail {A} (r : exn + A) : option str :=
  match r with
  | inl (HTTPException _ detail) => Some detail
  | _ => None
  end.

End Endpoints.

(** ** Measures on traces *)

(** What a call of the client with prompt [p] does when its three attempts
    raise: each attempt and its jitter sleep, and the two waits between. *)
Definition exhausted_attempts (p : str) : list event :=
  [GenerateCall p; Sleep 2 5; Sleep 4 4;
   GenerateCall p; Sleep 2 5; Sleep 4 4;
   GenerateCall p; Sleep 2 5].

Definition is_generate_call (ev : event) : bool :=
  match ev with GenerateCall _ => true | _ => false end.

Definition is_extraction (ev : event) : bool :=
  match ev with
  | ReadUpload | DetectType | ExtractPdf | DecodeText => true
  | _ => false
  end.

(** The number of generation attempts in a trace. *)
Definition generate_calls (tr : list event) : nat :=
  List.length (filter is_generate_call tr).

(** ** Words and word groups *)

(** A word: not empty and free of white space. *)
Definition is_word (w : str) : Prop :=
  w <> [] /\ Forall (fun c => isspace c = false) w.

(** The size the chunker counts for a group: each word and one separator. *)
Definition counted_size (ws : list str) : Z :=
  fold_right (fun w acc => len w + 1 + acc) 0 ws.

(** The chunks of an output that are longer than the bound. *)
Definition oversized_chunks (chunk_size : Z) (out : list str) : list str :=
  filter (fun c => len c >? chunk_size) out.

(** "At most one chunk is longer than the bound": two positions holding
    such chunks are the same position. *)
Definition at_most_one_exceeds (chunk_size : Z) (out : list str) : Prop :=
  forall i j ci cj,
    nth_error out i = Some ci -> nth_error out j = Some cj ->
    len ci > chunk_size -> len cj > chunk_size -> i = j.

(** ** Rejected uploads

    The uploads the specification wants refused: a detected type that is
    neither PDF nor plain text, a PDF that cannot be read, and an extracted
    text that is blank. (A text file that cannot be decoded does not exist:
    [latin-1] decodes every byte.) *)
Inductive rejected {I : Ingestion} (file : list byte) : Prop :=
| unsupported_type :
    from_buffer file <> lit "application/pdf" ->
    from_buffer file <> lit "text/plain" ->
    rejected file
| unreadable_pdf e :
    from_buffer file = lit "application/pdf" ->
    pdf_pages file = inl e ->
    rejected file
| blank_pdf pages :
    from_buffer file = lit "application/pdf" ->
    pdf_pages file = inr pages ->
    strip (join blank_line
             (filter (fun text => negb (str_eqb (strip text) [])) pages)) = [] ->
    rejected file
| blank_utf8_text text :
    from_buffer file = lit "text/plain" ->
    decode_utf8 file = Some text ->
    strip text = [] ->
    rejected file
| blank_latin1_text :
    from_buffer file = lit "text/plain" ->
    decode_utf8 file = None ->
    strip (map Byte.to_N file) = [] ->
    rejected file.

(** ** Sample collaborators *)

(** A stateless backend that refuses every prompt holding a [#] and
    otherwise answers with the length of the prompt. *)
Definition picky_model : GenerativeModel := {|
  backend := unit;
  generate_content := fun prompt b =>
    if existsb (N.eqb 35) prompt then
      (inl (PyException (lit "ResourceExhausted") (lit "429 quota exceeded")), b)
    else (inr (lit "simplified " ++ str_of_int (len prompt)), b)
|}.

Definition picky_world : @World picky_model :=
  mk_world (Some (tt : @backend picky_model)) [].

(** A backend that is down: every call raises. *)
Definition down_model : GenerativeModel := {|
  backend := unit;
  generate_content := fun _ b =>
    (inl (PyException (lit "ServiceUnavailable") (lit "503 unavailable")), b)
|}.

Definition down_world : @World down_model :=
  mk_world (Some (tt : @backend down_model)) [].

(** A runtime that puts every future at the same address. *)
Definition sample_runtime : Runtime := {|
  future_address := fun _ => 0x7f3a5c0d2e80%N
|}.

(** The eight bytes every PNG file starts with, and the five a PDF file
    starts with. *)
Definition png_signature : list byte :=
  [x89; x50; x4e; x47; x0d; x0a; x1a; x0a].

Definition pdf_header : list byte := [x25; x50; x44; x46; x2d].

(** An ingestion that detects every upload as a PNG image. *)
Definition png_ingestion : Ingestion := {|
  from_buffer := fun _ => lit "image/png";
  pdf_pages := fun _ => inl (PyException (lit "PdfReadError") (lit "EOF marker not found"));
  decode_utf8 := fun _ => None
|}.

(** A chunk of two words of 5000 characters each. *)
Definition two_long_words : str :=
  repeat 97%N 5000 ++ space ++ repeat 35%N 5000.

(** A group is within the bound by the chunker's count, or is empty, or is
    one word that alone exceeds the bound. *)
Definition group_ok (chunk_size : Z) (g : list str) : Prop :=
  g = [] \/ counted_size g <= chunk_size
  \/ exists w, g = [w] /\ len w + 1 > chunk_size.

(** ** Further measures and collaborators *)

(** A text of white space only (or empty). *)
Definition blank (s : str) : Prop := Forall (fun c => isspace c = true) s.

(** The least and the greatest number of seconds a trace sleeps. *)
Definition sleep_lo (tr : list event) : Z :=
  fold_right (fun ev acc => match ev with Sleep lo _ => lo + acc | _ => acc end)
             0 tr.

Definition sleep_hi (tr : list event) : Z :=
  fold_right (fun ev acc => match ev with Sleep _ hi => hi + acc | _ => acc end)
             0 tr.

(** The pacing sleeps between top-level chunks, [random.uniform(1, 3)]. *)
Definition is_chunk_pacing (ev : event) : bool :=
  match ev with Sleep lo hi => (lo =? 1) && (hi =? 3) | _ => false end.

Definition chunk_pacings (tr : list event) : nat :=
  List.length (filter is_chunk_pacing tr).

(** The prompts of the generation calls of a trace, in order. *)
Definition generate_prompts (tr : list event) : list str :=
  flat_map (fun ev => match ev with GenerateCall p => [p] | _ => [] end) tr.

(** Backends that answer every call, and backends that refuse every call. *)
Definition always_answers (G : GenerativeModel) : Prop :=
  forall p b, exists text, fst (generate_content p b) = inr text.

Definition always_refuses (G : GenerativeModel) : Prop :=
  forall p b, exists e, fst (generate_content p b) = inl e.

(** The number of sub-chunks of all the chunks with the fallback bound, and
    the greatest number of fragments the chunks can give. *)
Definition sub_chunk_total (chunks : list str) : nat :=
  fold_right (fun c n => (List.length (chunk_text c 8000) + n)%nat) 0%nat chunks.

Definition fan_out (chunks : list str) : nat :=
  fold_right (fun c n => (Nat.max 1 (List.length (chunk_text c 8000)) + n)%nat)
             0%nat chunks.

(** The text [/simplify] extracts from an upload of a supported type. *)
Inductive extracted {I : Ingestion} (file : list byte) : str -> Prop :=
| extracted_pdf pages :
    from_buffer file = lit "application/pdf" ->
    pdf_pages file = inr pages ->
    extracted file
      (join blank_line
         (filter (fun text => negb (str_eqb (strip text) [])) pages))
| extracted_utf8 text :
    from_buffer file = lit "text/plain" ->
    decode_utf8 file = Some text ->
    extracted file text
| extracted_latin1 :
    from_buffer file = lit "text/plain" ->
    decode_utf8 file = None ->
    extracted file (map Byte.to_N file).

(** A backend that answers every call, with the number of calls before. *)
Definition counting_model : GenerativeModel := {|
  backend := nat;
  generate_content := fun _ n =>
    (inr (lit "plain words " ++ str_of_int (Z.of_nat n)), S n)
|}.

Definition counting_world : @World counting_model :=
  mk_world (Some (0%nat : @backend counting_model)) [].

(** An ingestion for uploads of ASCII text, where UTF-8 decoding is the
    code point of each byte. *)
Definition ascii_text_ingestion : Ingestion := {|
  from_buffer := fun _ => lit "text/plain";
  pdf_pages := fun _ => inr [];
  decode_utf8 := fun content => Some (map Byte.to_N content)
|}.

(** An ingestion for a scanned PDF: two pages without text. *)
Definition scanned_pdf_ingestion : Ingestion := {|
  from_buffer := fun _ => lit "application/pdf";
  pdf_pages := fun _ => inr [lit "  "; lit ""];
  decode_utf8 := fun _ => None
|}.

(** The bytes of the upload [Hi all]. *)
Definition hi_all : list byte := [x48; x69; x20; x61; x6c; x6c].

(** * Properties *)

(** ** Splitting and joining *)

Section SplitJoin.

Lemma split_from_space cur sp x y :
  isspace sp = true ->
  split_from cur (x ++ sp :: y) = split_from cur x ++ split y.
Proof.
  intros Hsp. revert cur.
  induction x as [|c x IH]; intros cur; simpl.
  - rewrite Hsp. destruct cur; reflexivity.
  - destruct (isspace c).
    + destruct cur; rewrite IH; reflexivity.
    + apply IH.
Qed.

Lemma split_from_run cur w :
  Forall (fun c => isspace c = false) w -> cur ++ w <> [] ->
  split_from cur w = [cur ++ w].
Proof.
  intros Hw. revert cur.
  induction Hw as [|c w Hc _ IH]; intros cur Hne; simpl.
  - rewrite app_nil_r in Hne |- *.
    destruct cur; [now contradiction Hne|reflexivity].
  - rewrite Hc, IH, <- app_assoc; [reflexivity|].
    rewrite <- app_assoc. simpl. destruct cur; discriminate.
Qed.

Lemma split_word w : is_word w -> split w = [w].
Proof.
  intros [Hne Hw]. unfold split. now rewrite split_from_run.
Qed.

Lemma split_from_words s :
  forall cur, Forall (fun c => isspace c = false) cur ->
  Forall is_word (split_from cur s).
Proof.
  induction s as [|c s IH]; intros cur Hcur; simpl.
  - destruct cur; constructor; [split; [discriminate|assumption]|constructor].
  - destruct (isspace c) eqn:Hc.
    + destruct cur.
      * apply IH; constructor.
      * constructor; [split; [discriminate|assumption]|apply IH; constructor].
    + apply IH. apply Forall_app; split; [assumption|].
      constructor; [assumption|constructor].
Qed.

Lemma split_words s : Forall is_word (split s).
Proof. apply split_from_words. constructor. Qed.

Lemma split_join l : split (join space l) = List.concat (map split l).
Proof.
  induction l as [|x rest IH]; [reflexivity|].
  destruct rest as [|y rest].
  - simpl. now rewrite app_nil_r.
  - change (join space (x :: y :: rest))
      with (x ++ 32%N :: join space (y :: rest)).
    unfold split at 1. rewrite split_from_space by reflexivity.
    rewrite IH. reflexivity.
Qed.

Lemma split_join_words ws : Forall is_word ws -> split (join space ws) = ws.
Proof.
  intros H. rewrite split_join.
  induction H as [|w ws Hw _ IH]; [reflexivity|].
  simpl. rewrite split_word by assumption. simpl. now rewrite IH.
Qed.

Lemma join_nonempty g : g <> [] -> Forall is_word g -> join space g <> [].
Proof.
  intros Hne Hg. destruct g as [|w rest]; [congruence|].
  inversion Hg as [|? ? [Hw _] _]; subst.
  simpl. destruct rest; [assumption|].
  destruct w; [congruence|discriminate].
Qed.

Lemma len_app a b : len (a ++ b) = len a + len b.
Proof. unfold len. rewrite length_app. lia. Qed.

Lemma len_nonneg s : 0 <= len s.
Proof. unfold len. lia. Qed.

Lemma counted_size_app a b :
  counted_size (a ++ b) = counted_size a + counted_size b.
Proof.
  induction a as [|w a IH]; simpl; [reflexivity|]. rewrite IH. lia.
Qed.

Lemma len_join g : g <> [] -> len (join space g) + 1 = counted_size g.
Proof.
  induction g as [|w rest IH]; [congruence|]. intros _.
  destruct rest as [|y rest].
  - simpl. lia.
  - change (join space (w :: y :: rest))
      with (w ++ space ++ join space (y :: rest)).
    rewrite !len_app.
    change (counted_size (w :: y :: rest))
      with (len w + 1 + counted_size (y :: rest)).
    rewrite <- IH by discriminate. change (len space) with 1. lia.
Qed.

End SplitJoin.

(** ** The chunker *)

Section ChunkerFacts.

Import Chunker.

Variable chunk_size : Z.

(** The loop and the statements after it, from any state of the loop. *)
Lemma finish_fold words :
  forall st,
    finish (fold_left (step chunk_size) words st)
    = chunks st
      ++ map (join space)
           (group_words chunk_size (current_chunk st) (current_size st) words).
Proof.
  induction words as [|w ws IH]; intros st; simpl.
  - unfold finish. destruct (current_chunk st); simpl;
      [now rewrite app_nil_r|reflexivity].
  - rewrite IH. unfold step.
    destruct (current_size st + (len w + 1) >? chunk_size); simpl;
      [now rewrite <- app_assoc|reflexivity].
Qed.

Lemma chunk_text_groups text :
  Chunker.chunk_text text chunk_size
  = map (join space) (group_words chunk_size [] 0 (split text)).
Proof. unfold Chunker.chunk_text. now rewrite finish_fold. Qed.

Lemma concat_group_words words :
  forall cur size,
    List.concat (group_words chunk_size cur size words) = cur ++ words.
Proof.
  induction words as [|w ws IH]; intros cur size; simpl.
  - destruct cur; simpl; [reflexivity|now rewrite !app_nil_r].
  - destruct (size + (len w + 1) >? chunk_size); simpl; rewrite IH;
      [reflexivity|now rewrite <- app_assoc].
Qed.

Lemma group_words_are_words text :
  Forall (Forall is_word) (group_words chunk_size [] 0 (split text)).
Proof.
  apply Forall_concat. rewrite concat_group_words. apply split_words.
Qed.

(** Once the open group holds a word, no group formed later is empty. *)
Lemma group_words_nonempty words :
  forall cur size, cur <> [] ->
    Forall (fun g => g <> []) (group_words chunk_size cur size words).
Proof.
  induction words as [|w ws IH]; intros cur size Hne; simpl.
  - destruct cur; [congruence|]. constructor; [discriminate|constructor].
  - destruct (size + (len w + 1) >? chunk_size).
    + constructor; [assumption|]. apply IH. discriminate.
    + apply IH. destruct cur; discriminate.
Qed.

Lemma group_words_bound words :
  forall cur size,
    size = counted_size cur -> group_ok chunk_size cur ->
    Forall (group_ok chunk_size) (group_words chunk_size cur size words).
Proof.
  induction words as [|w ws IH]; intros cur size Hsize Hcur; simpl.
  - destruct cur; constructor; [assumption|constructor].
  - destruct (Z.gtb_spec (size + (len w + 1)) chunk_size) as [Hgt|Hle].
    + constructor; [assumption|]. apply IH; [simpl; lia|].
      destruct (Z_le_gt_dec (len w + 1) chunk_size) as [Hw|Hw].
      * right; left. simpl. lia.
      * right; right. now exists w.
    + apply IH.
      * rewrite counted_size_app. simpl. lia.
      * right; left. rewrite counted_size_app. simpl. lia.
Qed.

End ChunkerFacts.

Example chunk_text_empty : chunk_text (lit "") 5 = [].
Proof. reflexivity. Qed.

Example chunk_text_greedy :
  chunk_text (lit "  ab cd   efg h ") 6 = [lit "ab cd"; lit "efg h"].
Proof. reflexivity. Qed.

Example chunk_text_oversized_words :
  chunk_text (lit "aaaa bbbb c") 3 = [lit ""; lit "aaaa"; lit "bbbb"; lit "c"].
Proof. reflexivity. Qed.

(** ** Claims on the chunker *)

(** C5. For every text and every positive bound, the chunks joined with
    single spaces split into the same words as the text: no word is lost,
    duplicated, split or reordered. *)
Theorem chunk_round_trip (text : str) (B : Z) :
  0 < B -> split (join space (chunk_text text B)) = split text.
Proof.
  intros _. unfold chunk_text. rewrite chunk_text_groups, split_join, map_map.
  pose proof (group_words_are_words B text) as Hw.
  rewrite <- (concat_group_words B (split text) [] 0) at 2. simpl.
  induction Hw as [|g gs Hg _ IH]; [reflexivity|].
  simpl. now rewrite split_join_words, IH.
Qed.

Lemma chunk_round_trip_witness :
  0 < 6 /\
  split (join space (chunk_text (lit "  ab cd  efg h ") 6))
  = split (lit "  ab cd  efg h ").
Proof. split; [lia|apply chunk_round_trip; lia]. Defined.

(** C6, as the code has it. For every text and every positive bound, every
    chunk is at most as long as the bound, or is a single word of the text
    whose length plus one exceeds the bound; any number of chunks of the
    second kind may occur. *)
Theorem chunk_size_bound (text : str) (B : Z) :
  0 < B ->
  Forall (fun c => len c <= B \/ (In c (split text) /\ len c + 1 > B))
         (chunk_text text B).
Proof.
  intros HB. unfold chunk_text. rewrite chunk_text_groups.
  apply Forall_forall. intros c Hc.
  apply in_map_iff in Hc as (g & <- & Hg).
  pose proof (group_words_bound B (split text) [] 0 eq_refl (or_introl eq_refl))
    as Hok.
  rewrite Forall_forall in Hok.
  destruct (Hok g Hg) as [-> | [Hle | (w & -> & Hw)]].
  - left. unfold len. simpl. lia.
  - left. destruct g as [|w g]; [unfold len; simpl; lia|].
    pose proof (len_join (w :: g)) as Hlen. specialize (Hlen ltac:(discriminate)).
    lia.
  - right. split; [|assumption]. simpl.
    assert (In w (List.concat (Chunker.group_words B [] 0 (split text)))) as Hin
      by (apply in_concat; exists [w]; split; [assumption|now left]).
    now rewrite concat_group_words in Hin.
Qed.

Lemma chunk_size_bound_witness :
  0 < 3 /\
  Forall (fun c => len c <= 3
                   \/ (In c (split (lit "aaaa bbbb c")) /\ len c + 1 > 3))
         (chunk_text (lit "aaaa bbbb c") 3).
Proof. split; [lia|apply chunk_size_bound; lia]. Defined.

(** C6, as the claim words it, fails: with bound 3 the text [aaaa bbbb]
    gives the chunks [""], [aaaa] and [bbbb], two of which are longer than
    the bound. *)
Lemma two_oversized_chunks :
  chunk_text (lit "aaaa bbbb") 3 = [lit ""; lit "aaaa"; lit "bbbb"]
  /\ ~ at_most_one_exceeds 3 (chunk_text (lit "aaaa bbbb") 3).
Proof.
  split; [reflexivity|]. intros H.
  specialize (H 1%nat 2%nat (lit "aaaa") (lit "bbbb") eq_refl eq_refl).
  cbv in H. specialize (H eq_refl eq_refl). discriminate.
Qed.

(** C7. A text that consists of a single word whose length plus one exceeds
    the bound gives that word, whole, as a chunk of its own (after the empty
    chunk sealed before it). *)
Theorem oversized_single_word_own_chunk (text w : str) (B : Z) :
  0 < B -> split text = [w] -> len w + 1 > B ->
  chunk_text text B = [[]; w] /\ In w (chunk_text text B).
Proof.
  intros _ Hsplit Hw.
  assert (chunk_text text B = [[]; w]) as ->; [|split; [reflexivity|simpl; auto]].
  unfold chunk_text. rewrite chunk_text_groups, Hsplit. simpl.
  destruct (Z.gtb_spec (len w + 1) B); [reflexivity|lia].
Qed.

Lemma oversized_single_word_own_chunk_witness :
  chunk_text (lit " abcdef ") 4 = [[]; lit "abcdef"]
  /\ In (lit "abcdef") (chunk_text (lit " abcdef ") 4).
Proof.
  apply (oversized_single_word_own_chunk (lit " abcdef ") (lit "abcdef") 4);
    [lia|reflexivity|vm_compute; reflexivity].
Defined.

(** C9. With a positive bound, a text whose first word has length plus one
    above the bound gets the empty string as its first chunk, and an empty
    chunk occurs nowhere else: only at position 0, and only for such a
    text. *)
Theorem empty_chunk_only_before_oversized_first_word (text : str) (B : Z) :
  0 < B ->
  (forall w rest, split text = w :: rest -> len w + 1 > B ->
     exists tl, chunk_text text B = [] :: tl)
  /\ (forall i, nth_error (chunk_text text B) i = Some [] ->
        i = 0%nat /\ exists w rest, split text = w :: rest /\ len w + 1 > B).
Proof.
  intros _. unfold chunk_text. rewrite chunk_text_groups.
  pose proof (group_words_are_words B text) as Hwords.
  assert (forall gs i, Forall (fun g => g <> []) gs -> Forall (Forall is_word) gs ->
            nth_error (map (join space) gs) i = Some [] -> False) as Hno.
  { intros gs i Hne Hw Hi. apply nth_error_In, in_map_iff in Hi as (g & Hj & Hg).
    rewrite Forall_forall in Hne, Hw.
    exact (join_nonempty g (Hne g Hg) (Hw g Hg) Hj). }
  destruct (split text) as [|w ws]; simpl in *.
  - split; [discriminate|]. intros [|i]; discriminate.
  - destruct (Z.gtb_spec (len w + 1) B) as [Hgt|Hle].
    + split; [intros; eexists; reflexivity|].
      intros [|i] Hi.
      * split; [reflexivity|]. exists w, ws. split; [reflexivity|lia].
      * exfalso. inversion Hwords; subst.
        eapply (Hno _ i); [|eassumption|exact Hi].
        apply group_words_nonempty. discriminate.
    + split.
      * intros w' rest [= <- <-] Hw'. lia.
      * intros i Hi. exfalso. eapply (Hno _ i); [|exact Hwords|exact Hi].
        apply group_words_nonempty. discriminate.
Qed.

Lemma empty_chunk_only_before_oversized_first_word_witness :
  0 < 3 /\
  (exists tl, chunk_text (lit "aaaa bbbb c") 3 = [] :: tl)
  /\ (forall i, nth_error (chunk_text (lit "aaaa bbbb c") 3) i = Some [] ->
        i = 0%nat).
Proof.
  pose proof (empty_chunk_only_before_oversized_first_word
                (lit "aaaa bbbb c") 3 ltac:(lia)) as [Hfirst Honly].
  split; [lia|split].
  - apply (Hfirst (lit "aaaa") [lit "bbbb"; lit "c"]);
      [reflexivity|vm_compute; reflexivity].
  - intros i Hi. exact (proj1 (Honly i Hi)).
Defined.

(** ** The generation client *)

Section ClientFacts.

Context {G : GenerativeModel} {R : Runtime}.

Lemma generate_calls_app a b :
  generate_calls (a ++ b) = (generate_calls a + generate_calls b)%nat.
Proof. unfold generate_calls. now rewrite filter_app, length_app. Qed.

(** One attempt that the backend answers. *)
Lemma attempt_success chunk m tr text m' :
  call_model (simplify_prompt chunk) m = (inr text, m') ->
  simplify_text_chunk_attempt chunk (mk_world m tr)
  = (inr text, mk_world m' (tr ++ [GenerateCall (simplify_prompt chunk)])).
Proof.
  intros H.
  unfold simplify_text_chunk_attempt, try_except, bind, model_generate_content.
  cbn [model trace]. now rewrite H.
Qed.

(** One attempt that raises: the jitter sleep follows the call. *)
Lemma attempt_failure chunk m tr e m' :
  call_model (simplify_prompt chunk) m = (inl e, m') ->
  simplify_text_chunk_attempt chunk (mk_world m tr)
  = (inl e, mk_world m'
              (tr ++ [GenerateCall (simplify_prompt chunk); Sleep 2 5])).
Proof.
  intros H.
  unfold simplify_text_chunk_attempt, try_except, bind, model_generate_content.
  cbn [model trace]. rewrite H.
  unfold sleep_uniform, emit, raise. cbn [model trace].
  now rewrite <- app_assoc.
Qed.

(** The three attempts of [simplify_text_chunk] when each one raises. *)
Lemma simplify_text_chunk_exhausted chunk m0 tr e1 m1 e2 m2 e3 m3 :
  let p := simplify_prompt chunk in
  call_model p m0 = (inl e1, m1) ->
  call_model p m1 = (inl e2, m2) ->
  call_model p m2 = (inl e3, m3) ->
  simplify_text_chunk chunk (mk_world m0 tr)
  = (inl (RetryError (future_address (tr ++ exhausted_attempts p)) e3),
     mk_world m3
       (tr ++ [GenerateCall p; Sleep 2 5; Sleep 4 4;
               GenerateCall p; Sleep 2 5; Sleep 4 4;
               GenerateCall p; Sleep 2 5])).
Proof.
  intros p H1 H2 H3. unfold simplify_text_chunk, stop_after_attempt.
  cbn [Nat.sub retrying].
  rewrite (attempt_failure _ _ _ _ _ H1).
  unfold bind at 1, emit at 1. cbn [model trace].
  rewrite (attempt_failure _ _ _ _ _ H2).
  unfold bind at 1, emit at 1. cbn [model trace].
  rewrite (attempt_failure _ _ _ _ _ H3).
  rewrite <- !app_assoc. reflexivity.
Qed.

(** The runs of [simplify_text_chunk] that end with an answer, at the
    first, second and third attempt. *)
Lemma simplify_text_chunk_first chunk m0 tr text m1 :
  let p := simplify_prompt chunk in
  call_model p m0 = (inr text, m1) ->
  simplify_text_chunk chunk (mk_world m0 tr)
  = (inr text, mk_world m1 (tr ++ [GenerateCall p])).
Proof.
  intros p H1. unfold simplify_text_chunk, stop_after_attempt.
  cbn [Nat.sub retrying].
  now rewrite (attempt_success _ _ _ _ _ H1).
Qed.

Lemma simplify_text_chunk_second chunk m0 tr e1 m1 text m2 :
  let p := simplify_prompt chunk in
  call_model p m0 = (inl e1, m1) ->
  call_model p m1 = (inr text, m2) ->
  simplify_text_chunk chunk (mk_world m0 tr)
  = (inr text,
     mk_world m2
       (tr ++ [GenerateCall p; Sleep 2 5; Sleep 4 4; GenerateCall p])).
Proof.
  intros p H1 H2. unfold simplify_text_chunk, stop_after_attempt.
  cbn [Nat.sub retrying].
  rewrite (attempt_failure _ _ _ _ _ H1).
  unfold bind at 1, emit at 1. cbn [model trace].
  rewrite (attempt_success _ _ _ _ _ H2).
  rewrite <- !app_assoc. reflexivity.
Qed.

Lemma simplify_text_chunk_third chunk m0 tr e1 m1 e2 m2 text m3 :
  let p := simplify_prompt chunk in
  call_model p m0 = (inl e1, m1) ->
  call_model p m1 = (inl e2, m2) ->
  call_model p m2 = (inr text, m3) ->
  simplify_text_chunk chunk (mk_world m0 tr)
  = (inr text,
     mk_world m3
       (tr ++ [GenerateCall p; Sleep 2 5; Sleep 4 4;
               GenerateCall p; Sleep 2 5; Sleep 4 4; GenerateCall p])).
Proof.
  intros p H1 H2 H3. unfold simplify_text_chunk, stop_after_attempt.
  cbn [Nat.sub retrying].
  rewrite (attempt_failure _ _ _ _ _ H1).
  unfold bind at 1, emit at 1. cbn [model trace].
  rewrite (attempt_failure _ _ _ _ _ H2).
  unfold bind at 1, emit at 1. cbn [model trace].
  rewrite (attempt_success _ _ _ _ _ H3).
  rewrite <- !app_assoc. reflexivity.
Qed.

End ClientFacts.

Ltac count_calls :=
  unfold generate_calls; rewrite ?filter_app, ?length_app;
  cbn [filter is_generate_call List.length]; repeat split; lia.

(** C8. For every prompt and every behaviour of the backend, the client
    evaluates the generation call at least once and at most three times;
    it stops at the first attempt that returns and gives its text; every
    attempt that raises is followed by another one while fewer than three
    were made; and when the third raises too, the caller gets a
    [RetryError] that holds the future of that third attempt: its address
    and the exception it raised. *)
Theorem retry_at_most_three_attempts `{G : GenerativeModel} `{R : Runtime}
    (chunk : str) (m0 : option backend) (tr : list event) :
  let p := simplify_prompt chunk in
  let a1 := call_model p m0 in
  let a2 := call_model p (snd a1) in
  let a3 := call_model p (snd a2) in
  let res := simplify_text_chunk chunk (mk_world m0 tr) in
  let calls := (generate_calls (trace (snd res)) - generate_calls tr)%nat in
  (1 <= calls <= 3)%nat /\
  match fst a1, fst a2, fst a3 with
  | inr text, _, _ =>
      fst res = inr text /\ calls = 1%nat /\ model (snd res) = snd a1
  | inl _, inr text, _ =>
      fst res = inr text /\ calls = 2%nat /\ model (snd res) = snd a2
  | inl _, inl _, inr text =>
      fst res = inr text /\ calls = 3%nat /\ model (snd res) = snd a3
  | inl _, inl _, inl e3 =>
      fst res = inl (RetryError (future_address (trace (snd res))) e3)
      /\ calls = 3%nat
      /\ model (snd res) = snd a3
  end.
Proof.
  intros p a1 a2 a3 res calls. subst calls res a3 a2 a1.
  destruct (call_model p m0) as [[e1|t1] m1] eqn:H1; cbn [fst snd].
  2:{ rewrite (simplify_text_chunk_first _ _ _ _ _ H1).
      cbn [fst snd trace model]. count_calls. }
  destruct (call_model p m1) as [[e2|t2] m2] eqn:H2; cbn [fst snd].
  2:{ rewrite (simplify_text_chunk_second _ _ _ _ _ _ _ H1 H2).
      cbn [fst snd trace model]. count_calls. }
  destruct (call_model p m2) as [[e3|t3] m3] eqn:H3; cbn [fst snd].
  - rewrite (simplify_text_chunk_exhausted _ _ _ _ _ _ _ _ _ H1 H2 H3).
    cbn [fst snd trace model]. count_calls.
  - rewrite (simplify_text_chunk_third _ _ _ _ _ _ _ _ _ H1 H2 H3).
    cbn [fst snd trace model]. count_calls.
Qed.

(** ** The chunk pipeline *)

Section PipelineFacts.

Context {G : GenerativeModel} {R : Runtime}.

(** One iteration of the fallback loop, by the outcome of the client. *)
Lemma process_sub_chunks_cons sub_chunk rest acc w :
  process_sub_chunks (sub_chunk :: rest) acc w
  = match simplify_text_chunk sub_chunk (sub_paced w) with
    | (inr fragment, w1) => process_sub_chunks rest (acc ++ [fragment]) w1
    | (inl cause, w1) => process_sub_chunks rest (acc ++ [error_marker cause]) w1
    end.
Proof.
  cbn [process_sub_chunks].
  unfold bind, try_except, sleep_uniform, emit, ret. fold (sub_paced w).
  destruct (simplify_text_chunk sub_chunk (sub_paced w)) as [[e|t] w1];
    reflexivity.
Qed.

(** One iteration of the main loop, by the outcome of the client. *)
Lemma process_chunks_from_cons i chunk rest acc w :
  process_chunks_from i (chunk :: rest) acc w
  = match simplify_text_chunk chunk (paced i w) with
    | (inr fragment, w1) => process_chunks_from (i + 1) rest (acc ++ [fragment]) w1
    | (inl _, w1) =>
        match process_sub_chunks (chunk_text chunk 8000) acc w1 with
        | (inr acc', w2) => process_chunks_from (i + 1) rest acc' w2
        | (inl e, w2) => (inl e, w2)
        end
    end.
Proof.
  cbn [process_chunks_from].
  unfold bind, try_except, paced.
  destruct (i >? 1); unfold sleep_uniform, emit, ret;
    match goal with
    | |- context [simplify_text_chunk chunk ?w'] =>
        destruct (simplify_text_chunk chunk w') as [[e|t] w1]
    end; try reflexivity;
    destruct (process_sub_chunks (chunk_text chunk 8000) acc w1) as [[e'|a] w2];
    reflexivity.
Qed.

(** The fallback loop returns, and does what [fallback_run] says. *)
Lemma process_sub_chunks_run sub_chunks :
  forall acc w, exists out w',
    process_sub_chunks sub_chunks acc w = (inr (acc ++ out), w')
    /\ fallback_run sub_chunks w out w'.
Proof.
  induction sub_chunks as [|s rest IH]; intros acc w.
  - exists [], w. rewrite app_nil_r. split; [reflexivity|constructor].
  - rewrite process_sub_chunks_cons.
    destruct (simplify_text_chunk s (sub_paced w)) as [[e|t] w1] eqn:Hs.
    + destruct (IH (acc ++ [error_marker e]) w1) as (out & w' & Hrun & Hspec).
      exists (error_marker e :: out), w'. rewrite Hrun, <- app_assoc.
      split; [reflexivity|]. eapply fallback_failure; eassumption.
    + destruct (IH (acc ++ [t]) w1) as (out & w' & Hrun & Hspec).
      exists (t :: out), w'. rewrite Hrun, <- app_assoc.
      split; [reflexivity|]. eapply fallback_success; eassumption.
Qed.

(** The main loop returns, and does what [pipeline_run] says. *)
Lemma process_chunks_from_run chunks :
  forall i acc w, exists out w',
    process_chunks_from i chunks acc w = (inr (acc ++ out), w')
    /\ pipeline_run i chunks w out w'.
Proof.
  induction chunks as [|c rest IH]; intros i acc w.
  - exists [], w. rewrite app_nil_r. split; [reflexivity|constructor].
  - rewrite process_chunks_from_cons.
    destruct (simplify_text_chunk c (paced i w)) as [[e|t] w1] eqn:Hc.
    + destruct (process_sub_chunks_run (chunk_text c 8000) acc w1)
        as (frs & w2 & Hsub & Hfb).
      rewrite Hsub.
      destruct (IH (i + 1) (acc ++ frs) w2) as (out & w' & Hrun & Hspec).
      exists (frs ++ out), w'. rewrite Hrun, <- app_assoc.
      split; [reflexivity|]. eapply pipeline_fallback; eassumption.
    + destruct (IH (i + 1) (acc ++ [t]) w1) as (out & w' & Hrun & Hspec).
      exists (t :: out), w'. rewrite Hrun, <- app_assoc.
      split; [reflexivity|]. eapply pipeline_success; eassumption.
Qed.

(** A fallback gives one fragment for each sub-chunk. *)
Lemma fallback_run_length sub_chunks w out w' :
  fallback_run sub_chunks w out w' ->
  List.length out = List.length sub_chunks.
Proof. induction 1; simpl; congruence. Qed.

(** The iterations again, from the outcome alone. *)
Lemma chunk_success i chunk rest acc w fragment :
  fst (simplify_text_chunk chunk (paced i w)) = inr fragment ->
  process_chunks_from i (chunk :: rest) acc w
  = process_chunks_from (i + 1) rest (acc ++ [fragment])
      (snd (simplify_text_chunk chunk (paced i w))).
Proof.
  intros H. rewrite process_chunks_from_cons.
  destruct (simplify_text_chunk chunk (paced i w)) as [o w1].
  cbn [fst snd] in *. now subst o.
Qed.

Lemma chunk_failure i chunk rest acc w cause :
  fst (simplify_text_chunk chunk (paced i w)) = inl cause ->
  process_chunks_from i (chunk :: rest) acc w
  = match process_sub_chunks (chunk_text chunk 8000) acc
            (snd (simplify_text_chunk chunk (paced i w))) with
    | (inr acc', w2) => process_chunks_from (i + 1) rest acc' w2
    | (inl e, w2) => (inl e, w2)
    end.
Proof.
  intros H. rewrite process_chunks_from_cons.
  destruct (simplify_text_chunk chunk (paced i w)) as [o w1].
  cbn [fst snd] in *. now subst o.
Qed.

Lemma sub_chunk_success sub_chunk rest acc w fragment :
  fst (simplify_text_chunk sub_chunk (sub_paced w)) = inr fragment ->
  process_sub_chunks (sub_chunk :: rest) acc w
  = process_sub_chunks rest (acc ++ [fragment])
      (snd (simplify_text_chunk sub_chunk (sub_paced w))).
Proof.
  intros H. rewrite process_sub_chunks_cons.
  destruct (simplify_text_chunk sub_chunk (sub_paced w)) as [o w1].
  cbn [fst snd] in *. now subst o.
Qed.

Lemma sub_chunk_failure sub_chunk rest acc w cause :
  fst (simplify_text_chunk sub_chunk (sub_paced w)) = inl cause ->
  process_sub_chunks (sub_chunk :: rest) acc w
  = process_sub_chunks rest (acc ++ [error_marker cause])
      (snd (simplify_text_chunk sub_chunk (sub_paced w))).
Proof.
  intros H. rewrite process_sub_chunks_cons.
  destruct (simplify_text_chunk sub_chunk (sub_paced w)) as [o w1].
  cbn [fst snd] in *. now subst o.
Qed.

End PipelineFacts.

(** C3. For every sequence of chunks and every behaviour of the generation
    call, the pipeline returns a list of fragments and raises nothing, and
    the list is the one [pipeline_run] describes: the chunks in order, a
    chunk that fails replaced by the fragments of its sub-chunks in order,
    each failed sub-chunk by exactly one error marker in its place, the
    text [[Error processing this section: <cause>]] with the exception it
    raised printed as the cause, and the next sub-chunk and the next chunk
    processed after it. *)
Theorem pipeline_never_raises `{G : GenerativeModel} `{R : Runtime}
    (chunks : list str) (w : World) :
  exists out w',
    process_chunks_with_rate_limit chunks w = (inr out, w')
    /\ pipeline_run 1 chunks w out w'.
Proof.
  destruct (process_chunks_from_run chunks 1 [] w) as (out & w' & Hrun & Hspec).
  exists out, w'. split; [exact Hrun|exact Hspec].
Qed.

(** C4. Three chunks, of which the first and the third are simplified and
    the second fails after its retries and is cut with bound 8000 into two
    sub-chunks, the first simplified and the second failing: the pipeline
    returns exactly the four fragments [fragment1], [subfragment2a], the
    error marker of the second sub-chunk and [fragment3], in that order. *)
Theorem sequential_ordering `{G : GenerativeModel} `{R : Runtime}
    (c1 c2 c3 s2a s2b f1 f2a f3 : str) (e2 e2b : exn) (w0 : World) :
  let r1 := simplify_text_chunk c1 w0 in
  let r2 := simplify_text_chunk c2 (paced 2 (snd r1)) in
  let r2a := simplify_text_chunk s2a (sub_paced (snd r2)) in
  let r2b := simplify_text_chunk s2b (sub_paced (snd r2a)) in
  let r3 := simplify_text_chunk c3 (paced 3 (snd r2b)) in
  fst r1 = inr f1 ->
  fst r2 = inl e2 ->
  chunk_text c2 8000 = [s2a; s2b] ->
  fst r2a = inr f2a ->
  fst r2b = inl e2b ->
  fst r3 = inr f3 ->
  process_chunks_with_rate_limit [c1; c2; c3] w0
  = (inr [f1; f2a; error_marker e2b; f3], snd r3).
Proof.
  intros r1 r2 r2a r2b r3 H1 H2 Hsub H2a H2b H3.
  subst r3 r2b r2a r2 r1.
  unfold process_chunks_with_rate_limit.
  rewrite (chunk_success 1 c1 _ _ w0 f1) by exact H1.
  change (paced 1 w0) with w0. change (1 + 1) with 2.
  rewrite (chunk_failure 2 c2 _ _ _ e2) by exact H2.
  rewrite Hsub.
  rewrite (sub_chunk_success s2a _ _ _ f2a) by exact H2a.
  rewrite (sub_chunk_failure s2b _ _ _ e2b) by exact H2b.
  cbn [process_sub_chunks]. unfold ret at 1. change (2 + 1) with 3.
  rewrite (chunk_success 3 c3 _ _ _ f3) by exact H3.
  reflexivity.
Qed.

Lemma sequential_ordering_witness :
  fst (process_chunks_with_rate_limit (G := picky_model) (R := sample_runtime)
         [lit "first part"; two_long_words; lit "third and last part"]
         picky_world)
  = inr [lit "simplified 222"; lit "simplified 5212";
         lit "[Error processing this section: RetryError[<Future at 0x7f3a5c0d2e80 state=finished raised ResourceExhausted>]]";
         lit "simplified 231"].
Proof.
  rewrite (sequential_ordering (G := picky_model) (R := sample_runtime)
             (lit "first part") two_long_words (lit "third and last part")
             (repeat 97%N 5000) (repeat 35%N 5000)
             (lit "simplified 222") (lit "simplified 5212")
             (lit "simplified 231")
             (RetryError 0x7f3a5c0d2e80 (PyException (lit "ResourceExhausted")
                                      (lit "429 quota exceeded")))
             (RetryError 0x7f3a5c0d2e80 (PyException (lit "ResourceExhausted")
                                      (lit "429 quota exceeded")))
             picky_world);
    vm_compute; reflexivity.
Defined.

(** C10. A chunk without a word (empty or white space only) whose
    generation fails has no sub-chunk, so the loop goes on to the next
    chunk with the list of fragments as it was: the chunk adds neither a
    fragment nor an error marker. *)
Theorem wordless_chunk_dropped `{G : GenerativeModel} `{R : Runtime}
    (chunk : str) (rest acc : list str) (i : Z) (w : World) (cause : exn) :
  split chunk = [] ->
  fst (simplify_text_chunk chunk (paced i w)) = inl cause ->
  chunk_text chunk 8000 = []
  /\ process_chunks_from i (chunk :: rest) acc w
     = process_chunks_from (i + 1) rest acc
         (snd (simplify_text_chunk chunk (paced i w))).
Proof.
  intros Hsplit Hfail.
  assert (chunk_text chunk 8000 = []) as Hnone.
  { unfold chunk_text. now rewrite chunk_text_groups, Hsplit. }
  split; [exact Hnone|].
  rewrite (chunk_failure i chunk rest acc w cause Hfail), Hnone.
  reflexivity.
Qed.

Lemma wordless_chunk_dropped_witness :
  fst (process_chunks_with_rate_limit (G := down_model) (R := sample_runtime) [lit "   "] down_world)
  = inr [].
Proof.
  unfold process_chunks_with_rate_limit.
  rewrite (proj2 (wordless_chunk_dropped (G := down_model) (R := sample_runtime) (lit "   ") [] [] 1
                    down_world
                    (RetryError 0x7f3a5c0d2e80 (PyException (lit "ServiceUnavailable")
                                             (lit "503 unavailable")))
                    ltac:(reflexivity) ltac:(vm_compute; reflexivity))).
  reflexivity.
Defined.

(** ** The endpoints *)

Lemma str_eqb_refl a : str_eqb a a = true.
Proof. induction a as [|x a IH]; simpl; [reflexivity|]. now rewrite N.eqb_refl. Qed.

Lemma str_eqb_eq a : forall b, str_eqb a b = true -> a = b.
Proof.
  induction a as [|x a IH]; intros [|y b] H; simpl in H;
    try discriminate; [reflexivity|].
  apply andb_true_iff in H as [Hx Hab].
  apply N.eqb_eq in Hx. subst. f_equal. now apply IH.
Qed.

Lemma str_eqb_neq a b : a <> b -> str_eqb a b = false.
Proof.
  intros Hne. destruct (str_eqb a b) eqn:E; [|reflexivity].
  now apply str_eqb_eq in E.
Qed.

Section EndpointFacts.

Context {G : GenerativeModel} {R : Runtime} {I : Ingestion}.

(** [/simplify] without a model: the guard raises before anything is read,
    and the handler around the body turns its exception into a 500 whose
    detail is the guard's exception printed. *)
Lemma simplify_document_without_model file tr :
  simplify_document file (mk_world None tr)
  = (inl (HTTPException 500
            (lit "500: Gemini model not initialized properly. Please check your API key and model configuration.")),
     mk_world None tr).
Proof. reflexivity. Qed.

(** An [HTTPException] 400 raised in the body of [/simplify] leaves the
    endpoint as a 500 whose detail starts with [400: ]. *)
Lemma simplify_document_rewraps file w detail w' :
  simplify_document_body file w = (inl (HTTPException 400 detail), w') ->
  simplify_document file w
  = (inl (HTTPException 500 (lit "400: " ++ detail)), w').
Proof.
  intros H. unfold simplify_document, try_except. now rewrite H.
Qed.

(** The body of [/simplify] on a rejected upload raises its 400 without a
    generation call. *)
Lemma simplify_document_body_rejects file b tr :
  rejected file ->
  exists detail ingest,
    simplify_document_body file (mk_world (Some b) tr)
    = (inl (HTTPException 400 detail), mk_world (Some b) (tr ++ ingest))
    /\ generate_calls ingest = 0%nat.
Proof.
  intros Hrej.
  unfold simplify_document_body. cbn [model].
  unfold bind at 1, emit at 1. cbn [model trace].
  unfold bind at 1, emit at 1. cbn [model trace].
  unfold bind at 1.
  destruct Hrej as [Hpdf Htxt | e Hpdf Hread | pages Hpdf Hread Hblank
                    | text Htxt Hdec Hblank | Htxt Hdec Hblank].
  - rewrite (str_eqb_neq _ _ Hpdf), (str_eqb_neq _ _ Htxt).
    unfold raise. rewrite <- app_assoc.
    do 2 eexists. split; reflexivity.
  - rewrite Hpdf, str_eqb_refl.
    unfold read_pdf_file, try_except, bind, emit, raise. cbn [model trace].
    rewrite Hread, <- !app_assoc.
    do 2 eexists. split; reflexivity.
  - rewrite Hpdf, str_eqb_refl.
    unfold read_pdf_file, try_except, bind, emit, ret. cbn [model trace].
    rewrite Hread, Hblank, <- !app_assoc. cbn [str_eqb]. unfold raise.
    do 2 eexists. split; reflexivity.
  - rewrite Htxt.
    change (str_eqb (lit "text/plain") (lit "application/pdf")) with false.
    rewrite str_eqb_refl.
    unfold bind, emit, ret. cbn [model trace].
    rewrite Hdec, Hblank, <- !app_assoc. cbn [str_eqb]. unfold raise.
    do 2 eexists. split; reflexivity.
  - rewrite Htxt.
    change (str_eqb (lit "text/plain") (lit "application/pdf")) with false.
    rewrite str_eqb_refl.
    unfold bind, emit, ret, decode_latin1. cbn [model trace].
    rewrite Hdec, Hblank, <- !app_assoc. cbn [str_eqb]. unfold raise.
    do 2 eexists. split; reflexivity.
Qed.

End EndpointFacts.

(** C1, as the code has it. A rejected upload (unsupported type, unreadable
    PDF, blank extracted text) does not leave [/simplify] with status 400:
    the 400 raised for it is caught by the handler around the body and the
    response has status 500, with the 400 printed at the head of its detail.
    No generation call is made. *)
Theorem rejected_upload_answers_500 `{G : GenerativeModel} `{R : Runtime} `{I : Ingestion}
    (file : list byte) (b : backend) (tr : list event) :
  rejected file ->
  let r := simplify_document file (mk_world (Some b) tr) in
  response_status (fst r) = 500
  /\ (exists detail, response_detail (fst r) = Some (lit "400: " ++ detail))
  /\ generate_calls (trace (snd r)) = generate_calls tr.
Proof.
  intros Hrej r. subst r.
  destruct (simplify_document_body_rejects file b tr Hrej)
    as (detail & ingest & Hbody & Hcalls).
  rewrite (simplify_document_rewraps _ _ _ _ Hbody). cbn [fst snd trace].
  split; [reflexivity|]. split; [now exists detail|].
  rewrite generate_calls_app. lia.
Qed.

Lemma rejected_upload_answers_500_witness :
  let r := simplify_document (G := picky_model) (R := sample_runtime) (I := png_ingestion)
             png_signature picky_world in
  response_status (fst r) = 500
  /\ response_detail (fst r)
     = Some (lit "400: Unsupported file type. Please upload a .txt or .pdf file.").
Proof.
  pose proof (rejected_upload_answers_500 (G := picky_model) (R := sample_runtime)
                (I := png_ingestion) png_signature
                (tt : @backend picky_model) []
                (unsupported_type (I := png_ingestion) _
                   ltac:(discriminate) ltac:(discriminate))) as H.
  split; [exact (proj1 H)|reflexivity].
Defined.

(** C2, as the code has it. Without a model [/chat] has no guard: it runs
    the generation client, whose three attempts each evaluate the generation
    call on [None] and sleep, and it answers 500 with the [RetryError]
    printed as detail: the address of the future of the last attempt and
    the class [AttributeError], nothing about the configuration. *)
Theorem chat_without_model_attempts_generation `{G : GenerativeModel} `{R : Runtime}
    (message : str) (document_content : option str) (tr : list event) :
  let p := simplify_prompt (chat_prompt message document_content) in
  let r := chat_with_document message document_content (mk_world None tr) in
  r = (inl (HTTPException 500
              (lit "RetryError[<Future at "
                 ++ hex_of_address
                      (future_address
                         (tr ++ [GenerateCall p; Sleep 2 5; Sleep 4 4;
                                 GenerateCall p; Sleep 2 5; Sleep 4 4;
                                 GenerateCall p; Sleep 2 5]))
                 ++ lit " state=finished raised AttributeError>]")),
       mk_world None
         (tr ++ [GenerateCall p; Sleep 2 5; Sleep 4 4;
                 GenerateCall p; Sleep 2 5; Sleep 4 4;
                 GenerateCall p; Sleep 2 5]))
  /\ response_status (fst r) = 500
  /\ generate_calls (trace (snd r)) = (generate_calls tr + 3)%nat.
Proof.
  intros p r.
  assert (r = (inl (HTTPException 500
              (lit "RetryError[<Future at "
                 ++ hex_of_address
                      (future_address
                         (tr ++ [GenerateCall p; Sleep 2 5; Sleep 4 4;
                                 GenerateCall p; Sleep 2 5; Sleep 4 4;
                                 GenerateCall p; Sleep 2 5]))
                 ++ lit " state=finished raised AttributeError>]")),
       mk_world None
         (tr ++ [GenerateCall p; Sleep 2 5; Sleep 4 4;
                 GenerateCall p; Sleep 2 5; Sleep 4 4;
                 GenerateCall p; Sleep 2 5]))) as Hr.
  { subst r. unfold chat_with_document, try_except, bind.
    rewrite (simplify_text_chunk_exhausted (chat_prompt message document_content)
               None tr none_has_no_generate_content None
               none_has_no_generate_content None
               none_has_no_generate_content None
               eq_refl eq_refl eq_refl).
    reflexivity. }
  split; [exact Hr|]. rewrite Hr. cbn [fst snd trace].
  split; [reflexivity|]. count_calls.
Qed.

(** * Further properties *)

(** ** Blank texts *)

Section BlankFacts.

Lemma split_from_nil s :
  forall cur, split_from cur s = [] <-> cur = [] /\ blank s.
Proof.
  induction s as [|c s IH]; intros cur; simpl.
  - destruct cur; split; try discriminate.
    + intros _. split; [reflexivity|constructor].
    + reflexivity.
    + intros [H _]. discriminate.
  - destruct (isspace c) eqn:Hc.
    + destruct cur.
      * rewrite IH. split; intros [_ Hb]; (split; [reflexivity|]).
        -- now constructor.
        -- now inversion Hb.
      * split; [discriminate|]. intros [H _]. discriminate.
    + rewrite IH. split.
      * intros [H _]. destruct cur; discriminate.
      * intros [_ Hb]. inversion Hb; congruence.
Qed.

Lemma split_nil s : split s = [] <-> blank s.
Proof.
  unfold split. rewrite split_from_nil. split; [now intros [_ H]|now split].
Qed.

Lemma lstrip_nil s : lstrip s = [] <-> blank s.
Proof.
  induction s as [|c s IH]; simpl.
  - split; [constructor|reflexivity].
  - destruct (isspace c) eqn:Hc.
    + rewrite IH. split; [now constructor|now inversion 1].
    + split; [discriminate|]. inversion 1; congruence.
Qed.

Lemma lstrip_blank_nil s : blank (lstrip s) -> lstrip s = [].
Proof.
  induction s as [|c s IH]; simpl; [reflexivity|].
  destruct (isspace c) eqn:Hc; [exact IH|].
  inversion 1; congruence.
Qed.

Lemma strip_nil s : strip s = [] <-> blank s.
Proof.
  unfold strip, rstrip. split.
  - intros H. apply lstrip_nil, lstrip_blank_nil.
    apply (f_equal (@rev char)) in H. rewrite rev_involutive in H.
    simpl in H. apply lstrip_nil in H. unfold blank in *.
    apply Forall_rev in H. now rewrite rev_involutive in H.
  - intros H. apply lstrip_nil in H. now rewrite H.
Qed.

End BlankFacts.

(** ** More on the chunker *)

Section ChunkerMore.

Import Chunker.

Variable B : Z.

(** With a word in the open group, the first group formed starts with it. *)
Lemma first_group words :
  forall cur size, cur <> [] ->
    exists more rest, group_words B cur size words = (cur ++ more) :: rest.
Proof.
  induction words as [|w ws IH]; intros cur size Hne; simpl.
  - destruct cur; [congruence|]. exists [], []. now rewrite app_nil_r.
  - destruct (size + (len w + 1) >? B).
    + exists [], (group_words B [w] (len w + 1) ws). now rewrite app_nil_r.
    + destruct (IH (cur ++ [w]) (size + (len w + 1))) as (more & rest & H).
      { destruct cur; discriminate. }
      exists (w :: more), rest. now rewrite H, <- app_assoc.
Qed.

Lemma group_words_nil words : group_words B [] 0 words = [] <-> words = [].
Proof.
  split; [|now intros ->]. destruct words as [|w ws]; [reflexivity|]. simpl.
  destruct (len w + 1 >? B); [discriminate|].
  destruct (first_group ws [w] (len w + 1)) as (more & rest & H);
    [discriminate|]. simpl in H. rewrite H. discriminate.
Qed.

Lemma group_words_count words :
  forall cur size,
    (List.length (group_words B cur size words) <= List.length words + 1)%nat.
Proof.
  induction words as [|w ws IH]; intros cur size; simpl.
  - destruct cur; simpl; lia.
  - destruct (size + (len w + 1) >? B); simpl.
    + specialize (IH [w] (len w + 1)). lia.
    + specialize (IH (cur ++ [w]) (size + (len w + 1))). lia.
Qed.

(** Words that fit with the open group all join it. *)
Lemma group_words_fit words :
  forall cur size,
    size = counted_size cur ->
    counted_size cur + counted_size words <= B ->
    cur ++ words <> [] ->
    group_words B cur size words = [cur ++ words].
Proof.
  induction words as [|w ws IH]; intros cur size Hsize Hfit Hne; simpl.
  - rewrite app_nil_r in *. destruct cur; [congruence|reflexivity].
  - assert (0 <= counted_size ws) as Hws.
    { clear. induction ws as [|x xs IHx]; simpl; [lia|].
      pose proof (len_nonneg x). lia. }
    simpl in Hfit.
    destruct (Z.gtb_spec (size + (len w + 1)) B) as [Hgt|Hle]; [lia|].
    rewrite IH.
    + now rewrite <- app_assoc.
    + rewrite counted_size_app. simpl. lia.
    + rewrite counted_size_app. simpl. lia.
    + destruct cur; discriminate.
Qed.

(** A group is sealed only when the next word does not fit with it. *)
Lemma group_words_greedy words :
  forall cur size i g g',
    size = counted_size cur ->
    nth_error (group_words B cur size words) i = Some g ->
    nth_error (group_words B cur size words) (S i) = Some g' ->
    exists w ws, g' = w :: ws /\ counted_size g + (len w + 1) > B.
Proof.
  induction words as [|w ws IH]; intros cur size i g g' Hsize Hg Hg'.
  - simpl in Hg'. destruct cur; simpl in Hg'; [discriminate|].
    destruct i; discriminate.
  - simpl in Hg, Hg'.
    destruct (Z.gtb_spec (size + (len w + 1)) B) as [Hgt|Hle].
    + destruct i as [|i].
      * simpl in Hg, Hg'. injection Hg as <-.
        destruct (first_group ws [w] (len w + 1)) as (more & rest & H);
          [discriminate|].
        rewrite H in Hg'. simpl in Hg'. injection Hg' as <-.
        exists w, more. split; [reflexivity|lia].
      * simpl in Hg. change (nth_error (?x :: ?l) (S (S i)))
          with (nth_error l (S i)) in Hg'.
        eapply (IH [w] (len w + 1) i); [simpl; lia|eassumption|eassumption].
    + eapply (IH (cur ++ [w]) (size + (len w + 1)) i);
        [rewrite counted_size_app; simpl; lia|eassumption|eassumption].
Qed.

End ChunkerMore.

(** The words of a text, each counted with one separator, take at most
    one unit more than the text is long. *)
Lemma len_cons c s : len (c :: s) = 1 + len s.
Proof. unfold len. simpl List.length. lia. Qed.

Lemma counted_size_split_from s :
  forall cur, counted_size (split_from cur s) <= len cur + len s + 1.
Proof.
  induction s as [|c s IH]; intros cur; cbn [split_from].
  - pose proof (len_nonneg cur).
    destruct cur; cbn [counted_size fold_right]; change (len []) with 0; lia.
  - rewrite len_cons. pose proof (len_nonneg cur). destruct (isspace c).
    + specialize (IH []). change (len []) with 0 in IH.
      destruct cur as [|x cur];
        [|change (counted_size ((x :: cur) :: split_from [] s))
            with (len (x :: cur) + 1 + counted_size (split_from [] s))]; lia.
    + specialize (IH (cur ++ [c])). rewrite len_app, len_cons in IH.
      change (len []) with 0 in IH. lia.
Qed.

(** X1. The chunker gives no chunk exactly for the texts [/simplify] rejects
    as empty: those that [strip] leaves empty, whatever the bound. *)
Theorem no_chunk_iff_stripped_empty (text : str) (B : Z) :
  chunk_text text B = [] <-> strip text = [].
Proof.
  rewrite strip_nil, <- split_nil. unfold chunk_text.
  rewrite chunk_text_groups. split.
  - intros H. apply (group_words_nil B).
    destruct (Chunker.group_words B [] 0 (split text)); [reflexivity|discriminate].
  - intros ->. reflexivity.
Qed.

(** X2. Every chunk is white-space normalised: it is its own words joined by
    single spaces, so it has no leading, trailing or repeated white space,
    whatever separated the words in the text. *)
Theorem chunks_are_normalised (text : str) (B : Z) :
  Forall (fun c => join space (split c) = c) (chunk_text text B).
Proof.
  unfold chunk_text. rewrite chunk_text_groups.
  apply Forall_forall. intros c Hc.
  apply in_map_iff in Hc as (g & <- & Hg).
  pose proof (group_words_are_words B text) as Hw.
  rewrite Forall_forall in Hw.
  now rewrite split_join_words by (apply Hw; exact Hg).
Qed.

Lemma chunk_text_fits (text : str) (B : Z) :
  len text + 1 <= B -> strip text <> [] ->
  chunk_text text B = [join space (split text)].
Proof.
  intros Hfit Hwords. unfold chunk_text. rewrite chunk_text_groups.
  rewrite group_words_fit; [reflexivity|reflexivity| |].
  - pose proof (counted_size_split_from text []) as H.
    change (len []) with 0 in H. fold (split text) in H.
    change (counted_size []) with 0. lia.
  - simpl. intros H. apply Hwords. now apply strip_nil, split_nil.
Qed.

(** X3. A text that is not blank and whose length plus one is within the
    bound is not cut: it gives the single chunk of its words joined by
    single spaces. *)
Theorem text_within_bound_is_one_chunk (text : str) (B : Z) :
  len text + 1 <= B -> strip text <> [] ->
  chunk_text text B = [join space (split text)].
Proof. exact (chunk_text_fits text B). Qed.

Lemma text_within_bound_is_one_chunk_witness :
  chunk_text (lit "  the  party of the first part ") 15000
  = [lit "the party of the first part"].
Proof.
  apply (text_within_bound_is_one_chunk
           (lit "  the  party of the first part ") 15000);
    [vm_compute; discriminate|vm_compute; discriminate].
Defined.

(** X4. The chunker is greedy: a chunk is closed only when the first word of
    the next chunk would not fit, by the chunker's count of one separator
    for each word. *)
Theorem chunks_are_greedy (text : str) (B : Z) (i : nat) (c c' w : str)
    (ws : list str) :
  nth_error (chunk_text text B) i = Some c ->
  nth_error (chunk_text text B) (S i) = Some c' ->
  split c' = w :: ws ->
  counted_size (split c) + (len w + 1) > B.
Proof.
  unfold chunk_text. rewrite chunk_text_groups. intros Hc Hc' Hw.
  rewrite nth_error_map in Hc, Hc'.
  destruct (nth_error (Chunker.group_words B [] 0 (split text)) i)
    as [g|] eqn:Hg; [|discriminate].
  destruct (nth_error (Chunker.group_words B [] 0 (split text)) (S i))
    as [g'|] eqn:Hg'; [|discriminate].
  injection Hc as <-. injection Hc' as <-.
  pose proof (group_words_are_words B text) as Hwords.
  rewrite Forall_forall in Hwords.
  rewrite split_join_words in Hw by (eapply Hwords, nth_error_In; eassumption).
  rewrite split_join_words by (eapply Hwords, nth_error_In; eassumption).
  destruct (group_words_greedy B (split text) [] 0 i g g' eq_refl Hg Hg')
    as (w0 & ws0 & Heq & Hgt).
  rewrite Heq in Hw. injection Hw as <- _. exact Hgt.
Qed.

Lemma chunks_are_greedy_witness :
  counted_size (split (lit "ab cd")) + (len (lit "efg") + 1) > 6.
Proof.
  apply (chunks_are_greedy (lit "  ab cd   efg h ") 6 0
           (lit "ab cd") (lit "efg h") (lit "efg") [lit "h"]);
    reflexivity.
Defined.

(** X5. The chunker never gives more chunks than the text has words, plus
    the one empty chunk an oversized first word leaves before it. *)
Theorem chunk_count_bound (text : str) (B : Z) :
  (List.length (chunk_text text B) <= List.length (split text) + 1)%nat.
Proof.
  unfold chunk_text. rewrite chunk_text_groups, length_map.
  apply group_words_count.
Qed.

(** ** More on the generation client *)

Section ClientMore.

Context {G : GenerativeModel} {R : Runtime}.

(** The four runs of the client, with the trace each one adds. *)
Lemma simplify_text_chunk_cases chunk m0 tr :
  let p := simplify_prompt chunk in
  let res := simplify_text_chunk chunk (mk_world m0 tr) in
  (exists text m, res = (inr text, mk_world m (tr ++ [GenerateCall p])))
  \/ (exists text m,
        res = (inr text,
               mk_world m
                 (tr ++ [GenerateCall p; Sleep 2 5; Sleep 4 4; GenerateCall p])))
  \/ (exists text m,
        res = (inr text,
               mk_world m
                 (tr ++ [GenerateCall p; Sleep 2 5; Sleep 4 4;
                         GenerateCall p; Sleep 2 5; Sleep 4 4; GenerateCall p])))
  \/ (exists cause m,
        res = (inl (RetryError (future_address (tr ++ exhausted_attempts p))
                          cause),
               mk_world m
                 (tr ++ [GenerateCall p; Sleep 2 5; Sleep 4 4;
                         GenerateCall p; Sleep 2 5; Sleep 4 4;
                         GenerateCall p; Sleep 2 5]))).
Proof.
  intros p res. subst res.
  destruct (call_model p m0) as [[e1|t1] m1] eqn:H1.
  2:{ left. exists t1, m1. exact (simplify_text_chunk_first _ _ _ _ _ H1). }
  destruct (call_model p m1) as [[e2|t2] m2] eqn:H2.
  2:{ right; left. exists t2, m2.
      exact (simplify_text_chunk_second _ _ _ _ _ _ _ H1 H2). }
  destruct (call_model p m2) as [[e3|t3] m3] eqn:H3.
  - right; right; right. exists e3, m3.
    exact (simplify_text_chunk_exhausted _ _ _ _ _ _ _ _ _ H1 H2 H3).
  - right; right; left. exists t3, m3.
    exact (simplify_text_chunk_third _ _ _ _ _ _ _ _ _ H1 H2 H3).
Qed.

Lemma sleep_lo_app a b : sleep_lo (a ++ b) = sleep_lo a + sleep_lo b.
Proof.
  induction a as [|ev a IH]; simpl; [reflexivity|].
  destruct ev; rewrite IH; lia.
Qed.

Lemma sleep_hi_app a b : sleep_hi (a ++ b) = sleep_hi a + sleep_hi b.
Proof.
  induction a as [|ev a IH]; simpl; [reflexivity|].
  destruct ev; rewrite IH; lia.
Qed.

Lemma chunk_pacings_app a b :
  chunk_pacings (a ++ b) = (chunk_pacings a + chunk_pacings b)%nat.
Proof. unfold chunk_pacings. now rewrite filter_app, length_app. Qed.

Lemma generate_prompts_app a b :
  generate_prompts (a ++ b) = generate_prompts a ++ generate_prompts b.
Proof. unfold generate_prompts. apply flat_map_app. Qed.

(** A backend that answers every call is answered at the first attempt. *)
Lemma simplify_text_chunk_answered chunk b tr :
  always_answers G ->
  exists text b',
    simplify_text_chunk chunk (mk_world (Some b) tr)
    = (inr text,
       mk_world (Some b') (tr ++ [GenerateCall (simplify_prompt chunk)])).
Proof.
  intros Hans.
  destruct (Hans (simplify_prompt chunk) b) as (text & Htext).
  destruct (generate_content (simplify_prompt chunk) b) as [r b'] eqn:Hg.
  cbn [fst] in Htext. subst r.
  exists text, b'. apply simplify_text_chunk_first.
  cbn [call_model]. now rewrite Hg.
Qed.

(** A backend that refuses every call, or no model at all: every call
    raises. *)
Lemma call_model_refused p m :
  always_refuses G -> exists e m', call_model p m = (inl e, m').
Proof.
  intros Href. destruct m as [b|]; cbn [call_model].
  - destruct (Href p b) as (e & He).
    destruct (generate_content p b) as [r b'] eqn:Hg.
    cbn [fst] in He. subst r. now exists e, (Some b').
  - now exists none_has_no_generate_content, None.
Qed.

Lemma simplify_text_chunk_refused chunk m tr :
  always_refuses G ->
  let p := simplify_prompt chunk in
  exists cause m',
    simplify_text_chunk chunk (mk_world m tr)
    = (inl (RetryError (future_address (tr ++ exhausted_attempts p)) cause),
       mk_world m'
         (tr ++ [GenerateCall p; Sleep 2 5; Sleep 4 4;
                 GenerateCall p; Sleep 2 5; Sleep 4 4;
                 GenerateCall p; Sleep 2 5])).
Proof.
  intros Href p.
  destruct (call_model_refused p m Href) as (e1 & m1 & H1).
  destruct (call_model_refused p m1 Href) as (e2 & m2 & H2).
  destruct (call_model_refused p m2 Href) as (e3 & m3 & H3).
  exists e3, m3.
  exact (simplify_text_chunk_exhausted _ _ _ _ _ _ _ _ _ H1 H2 H3).
Qed.

End ClientMore.

(** X6. Whatever the backend raises, the client raises only tenacity's
    [RetryError]: the caller never gets the exception of the call itself. *)
Theorem client_raises_only_retry_error `{G : GenerativeModel} `{R : Runtime}
    (chunk : str) (w : World) (e : exn) :
  fst (simplify_text_chunk chunk w) = inl e ->
  exists future_at cause, e = RetryError future_at cause.
Proof.
  destruct w as [m tr]. intros H.
  destruct (simplify_text_chunk_cases chunk m tr)
    as [(t & m' & E) | [(t & m' & E) | [(t & m' & E) | (c & m' & E)]]];
    rewrite E in H; cbn [fst] in H; try discriminate.
  injection H as <-. now eexists _, c.
Qed.

Lemma client_raises_only_retry_error_witness :
  exists future_at cause,
    RetryError 0x7f3a5c0d2e80
      (PyException (lit "ServiceUnavailable") (lit "503 unavailable"))
    = RetryError future_at cause.
Proof.
  apply (client_raises_only_retry_error (G := down_model) (R := sample_runtime) (lit "clause")
           down_world).
  vm_compute. reflexivity.
Defined.

(** X7. The sleeping of one call of the client: nothing when the first
    attempt is answered, never more than 23 seconds, and between 14 and 23
    seconds when it fails (three jitters of 2 to 5 seconds and two waits of
    4 seconds). *)
Theorem client_sleep_bounds `{G : GenerativeModel} `{R : Runtime}
    (chunk : str) (m : option backend) (tr : list event) :
  let res := simplify_text_chunk chunk (mk_world m tr) in
  let lo := sleep_lo (trace (snd res)) - sleep_lo tr in
  let hi := sleep_hi (trace (snd res)) - sleep_hi tr in
  0 <= lo <= hi /\ hi <= 23
  /\ (forall text, fst (call_model (simplify_prompt chunk) m) = inr text ->
        hi = 0)
  /\ (forall e, fst res = inl e -> lo = 14 /\ hi = 23).
Proof.
  intros res lo hi. subst lo hi res.
  destruct (call_model (simplify_prompt chunk) m) as [[e1|t1] m1] eqn:H1.
  - destruct (simplify_text_chunk_cases chunk m tr)
      as [(t & m' & E) | [(t & m' & E) | [(t & m' & E) | (c & m' & E)]]];
      rewrite E; cbn [fst snd trace]; rewrite sleep_lo_app, sleep_hi_app;
      cbn [sleep_lo sleep_hi fold_right];
      (repeat split; try lia; try discriminate).
  - rewrite (simplify_text_chunk_first _ _ _ _ _ H1).
    cbn [fst snd trace]. rewrite sleep_lo_app, sleep_hi_app.
    cbn [sleep_lo sleep_hi fold_right].
    repeat split; try lia; try discriminate.
Qed.

Lemma client_sleep_bounds_witness :
  let res := simplify_text_chunk (G := down_model) (R := sample_runtime) (lit "clause") down_world in
  sleep_lo (trace (snd res)) - sleep_lo [] = 14
  /\ sleep_hi (trace (snd res)) - sleep_hi [] = 23.
Proof.
  exact (proj2 (proj2 (proj2
           (client_sleep_bounds (G := down_model) (R := sample_runtime) (lit "clause")
              (Some (tt : @backend down_model)) [])))
           (RetryError 0x7f3a5c0d2e80 (PyException (lit "ServiceUnavailable")
                                    (lit "503 unavailable")))
           ltac:(vm_compute; reflexivity)).
Defined.

(** ** More on the chunk pipeline *)

Ltac client_cases chunk m tr E :=
  let t := fresh "t" in
  let m' := fresh "m'" in
  let c := fresh "cause" in
  destruct (simplify_text_chunk_cases chunk m tr)
    as [(t & m' & E) | [(t & m' & E) | [(t & m' & E) | (c & m' & E)]]].

Section PipelineMore.

Context {G : GenerativeModel} {R : Runtime}.

(** One call of the client makes one to three generation calls and no
    pacing sleep. *)
Lemma client_calls_bound chunk w :
  let w' := snd (simplify_text_chunk chunk w) in
  (generate_calls (trace w) + 1 <= generate_calls (trace w')
   <= generate_calls (trace w) + 3)%nat
  /\ chunk_pacings (trace w') = chunk_pacings (trace w).
Proof.
  destruct w as [m tr]. cbn zeta.
  client_cases chunk m tr E; rewrite E; cbn [snd trace];
    rewrite generate_calls_app, chunk_pacings_app;
    generalize (simplify_prompt chunk) as p; intros p;
    generalize (generate_calls tr) as n, (chunk_pacings tr) as k; intros n k;
    cbn; lia.
Qed.

Lemma paced_measures i w :
  generate_calls (trace (paced i w)) = generate_calls (trace w)
  /\ chunk_pacings (trace (paced i w))
     = (chunk_pacings (trace w) + if i >? 1 then 1 else 0)%nat.
Proof.
  unfold paced. destruct (i >? 1); cbn [trace];
    rewrite ?generate_calls_app, ?chunk_pacings_app; cbn; lia.
Qed.

Lemma sub_paced_measures w :
  generate_calls (trace (sub_paced w)) = generate_calls (trace w)
  /\ chunk_pacings (trace (sub_paced w)) = chunk_pacings (trace w).
Proof.
  unfold sub_paced. cbn [trace].
  rewrite generate_calls_app, chunk_pacings_app. cbn. lia.
Qed.

(** The fallback loop: at most three calls for each sub-chunk, at least
    one, and no pacing sleep of the main loop. *)
Lemma process_sub_chunks_measures sub_chunks :
  forall acc w,
    let w' := snd (process_sub_chunks sub_chunks acc w) in
    (generate_calls (trace w) + List.length sub_chunks
     <= generate_calls (trace w')
     <= generate_calls (trace w) + 3 * List.length sub_chunks)%nat
    /\ chunk_pacings (trace w') = chunk_pacings (trace w).
Proof.
  induction sub_chunks as [|s rest IH]; intros acc w; cbn zeta.
  - cbn. lia.
  - rewrite process_sub_chunks_cons.
    pose proof (client_calls_bound s (sub_paced w)) as Hc. cbn zeta in Hc.
    pose proof (sub_paced_measures w) as Hp.
    destruct (simplify_text_chunk s (sub_paced w)) as [[e|t] w1];
      cbn [snd] in Hc;
      match goal with
      | |- context [process_sub_chunks rest ?a w1] =>
          specialize (IH a w1); cbn zeta in IH
      end; cbn [List.length]; lia.
Qed.

(** The main loop from a position after the first. *)
Lemma process_chunks_from_measures chunks :
  forall i acc w, 1 < i ->
    let w' := snd (process_chunks_from i chunks acc w) in
    (generate_calls (trace w) + List.length chunks
     <= generate_calls (trace w')
     <= generate_calls (trace w)
        + 3 * (List.length chunks + sub_chunk_total chunks))%nat
    /\ chunk_pacings (trace w')
       = (chunk_pacings (trace w) + List.length chunks)%nat.
Proof.
  induction chunks as [|c rest IH]; intros i acc w Hi; cbn zeta.
  - cbn. lia.
  - rewrite process_chunks_from_cons.
    pose proof (client_calls_bound c (paced i w)) as Hc. cbn zeta in Hc.
    pose proof (paced_measures i w) as Hp.
    destruct (Z.gtb_spec i 1) as [_|]; [|lia].
    destruct (simplify_text_chunk c (paced i w)) as [[e|t] w1]; cbn [snd] in Hc.
    + pose proof (process_sub_chunks_measures (chunk_text c 8000) acc w1) as Hs.
      cbn zeta in Hs.
      destruct (process_sub_chunks_run (chunk_text c 8000) acc w1)
        as (frs & w2 & Hrun & _).
      rewrite Hrun in *. cbn [snd] in Hs.
      specialize (IH (i + 1) (acc ++ frs) w2 ltac:(lia)). cbn zeta in IH.
      cbn [List.length sub_chunk_total fold_right].
      fold (sub_chunk_total rest). lia.
    + specialize (IH (i + 1) (acc ++ [t]) w1 ltac:(lia)). cbn zeta in IH.
      cbn [List.length sub_chunk_total fold_right].
      fold (sub_chunk_total rest). lia.
Qed.

End PipelineMore.

(** The whole pipeline: its generation calls and its pacing sleeps. *)
Lemma pipeline_measures `{G : GenerativeModel} `{R : Runtime} (chunks : list str) (w : World) :
  let w' := snd (process_chunks_with_rate_limit chunks w) in
  (generate_calls (trace w) + List.length chunks
   <= generate_calls (trace w')
   <= generate_calls (trace w)
      + 3 * (List.length chunks + sub_chunk_total chunks))%nat
  /\ chunk_pacings (trace w')
     = (chunk_pacings (trace w) + (List.length chunks - 1))%nat.
Proof.
  cbn zeta. unfold process_chunks_with_rate_limit.
  destruct chunks as [|c rest]; [cbn; lia|].
  rewrite process_chunks_from_cons. change (paced 1 w) with w.
  pose proof (client_calls_bound c w) as Hc. cbn zeta in Hc.
  change (1 + 1) with 2.
  destruct (simplify_text_chunk c w) as [[e|t] w1]; cbn [snd] in Hc.
  - pose proof (process_sub_chunks_measures (chunk_text c 8000) [] w1) as Hs.
    cbn zeta in Hs.
    destruct (process_sub_chunks_run (chunk_text c 8000) [] w1)
      as (frs & w2 & Hrun & _).
    rewrite Hrun in *. cbn [snd] in Hs.
    pose proof (process_chunks_from_measures rest 2 ([] ++ frs) w2 ltac:(lia))
      as Hr. cbn zeta in Hr.
    cbn [List.length sub_chunk_total fold_right].
    fold (sub_chunk_total rest). lia.
  - pose proof (process_chunks_from_measures rest 2 ([] ++ [t]) w1 ltac:(lia))
      as Hr. cbn zeta in Hr.
    cbn [List.length sub_chunk_total fold_right].
    fold (sub_chunk_total rest). lia.
Qed.

(** X8. The generation calls of one run of the pipeline, whatever the
    backend does: at least one for each chunk, and at most three for each
    chunk and three for each sub-chunk the chunks have with bound 8000. *)
Theorem pipeline_call_budget `{G : GenerativeModel} `{R : Runtime}
    (chunks : list str) (w : World) :
  let w' := snd (process_chunks_with_rate_limit chunks w) in
  (generate_calls (trace w) + List.length chunks
   <= generate_calls (trace w')
   <= generate_calls (trace w)
      + 3 * (List.length chunks + sub_chunk_total chunks))%nat.
Proof. exact (proj1 (pipeline_measures chunks w)). Qed.

(** X9. The pipeline sleeps its pacing delay of 1 to 3 seconds once before
    every chunk but the first, whatever the outcome of the chunks. *)
Theorem pipeline_paces_between_chunks `{G : GenerativeModel} `{R : Runtime}
    (chunks : list str) (w : World) :
  chunk_pacings (trace (snd (process_chunks_with_rate_limit chunks w)))
  = (chunk_pacings (trace w) + (List.length chunks - 1))%nat.
Proof. exact (proj2 (pipeline_measures chunks w)). Qed.

Section PipelineOutcomes.

Context {G : GenerativeModel} {R : Runtime}.

Lemma fan_out_bound i chunks w out w' :
  pipeline_run i chunks w out w' ->
  (List.length out <= fan_out chunks)%nat.
Proof.
  induction 1; cbn [fan_out fold_right List.length].
  - lia.
  - fold (fan_out rest). lia.
  - fold (fan_out rest). rewrite length_app.
    match goal with
    | H : fallback_run _ _ _ _ |- _ => apply fallback_run_length in H
    end. lia.
Qed.

(** The main loop on a backend that answers every call. *)
Lemma process_chunks_from_answered chunks :
  always_answers G ->
  forall i acc b tr, exists out b' tr',
    process_chunks_from i chunks acc (mk_world (Some b) tr)
    = (inr (acc ++ out), mk_world (Some b') tr')
    /\ List.length out = List.length chunks
    /\ generate_prompts tr'
       = generate_prompts tr ++ map simplify_prompt chunks.
Proof.
  intros Hans.
  induction chunks as [|c rest IH]; intros i acc b tr.
  - exists [], b, tr. cbn [process_chunks_from ret map List.length].
    now rewrite !app_nil_r.
  - rewrite process_chunks_from_cons.
    assert (exists tr1, paced i (mk_world (Some b) tr) = mk_world (Some b) tr1
                        /\ generate_prompts tr1 = generate_prompts tr)
      as (tr1 & -> & Htr1).
    { unfold paced. destruct (i >? 1); cbn [model trace]; eexists;
        (split; [reflexivity|]); [|reflexivity].
      rewrite generate_prompts_app. cbn. now rewrite app_nil_r. }
    destruct (simplify_text_chunk_answered c b tr1 Hans) as (t & b1 & E).
    rewrite E.
    destruct (IH (i + 1) (acc ++ [t]) b1
                (tr1 ++ [GenerateCall (simplify_prompt c)]))
      as (out & b' & tr' & Hrun & Hlen & Hprompts).
    exists (t :: out), b', tr'. rewrite Hrun, <- app_assoc.
    split; [reflexivity|]. split; [cbn; now rewrite Hlen|].
    rewrite Hprompts, generate_prompts_app, Htr1, <- app_assoc.
    reflexivity.
Qed.

(** The fallback loop on a backend that refuses every call. *)
Lemma process_sub_chunks_refused sub_chunks :
  always_refuses G ->
  forall acc w, exists out w',
    process_sub_chunks sub_chunks acc w = (inr (acc ++ out), w')
    /\ List.length out = List.length sub_chunks
    /\ Forall (fun f => exists future_at cause,
                  f = error_marker (RetryError future_at cause)) out.
Proof.
  intros Href.
  induction sub_chunks as [|s rest IH]; intros acc w.
  - exists [], w. cbn [process_sub_chunks ret]. rewrite app_nil_r.
    repeat split. constructor.
  - rewrite process_sub_chunks_cons.
    destruct (sub_paced w) as [m tr] eqn:Hw.
    destruct (simplify_text_chunk_refused s m tr Href) as (cause & m' & E).
    cbn zeta in E. rewrite E.
    destruct (IH (acc ++ [error_marker
                            (RetryError
                               (future_address
                                  (tr ++ exhausted_attempts (simplify_prompt s)))
                               cause)])
                (mk_world m'
                   (tr ++ [GenerateCall (simplify_prompt s); Sleep 2 5;
                           Sleep 4 4; GenerateCall (simplify_prompt s);
                           Sleep 2 5; Sleep 4 4;
                           GenerateCall (simplify_prompt s); Sleep 2 5])))
      as (out & w' & Hrun & Hlen & Hall).
    eexists (_ :: out), w'.
    rewrite Hrun, <- app_assoc.
    split; [reflexivity|]. split; [cbn; now rewrite Hlen|].
    constructor; [now eexists _, cause|exact Hall].
Qed.

(** The main loop on a backend that refuses every call. *)
Lemma process_chunks_from_refused chunks :
  always_refuses G ->
  forall i acc w, exists out w',
    process_chunks_from i chunks acc w = (inr (acc ++ out), w')
    /\ List.length out = sub_chunk_total chunks
    /\ Forall (fun f => exists future_at cause,
                  f = error_marker (RetryError future_at cause)) out.
Proof.
  intros Href.
  induction chunks as [|c rest IH]; intros i acc w.
  - exists [], w. cbn [process_chunks_from ret]. rewrite app_nil_r.
    repeat split. constructor.
  - rewrite process_chunks_from_cons.
    destruct (paced i w) as [m tr] eqn:Hw.
    destruct (simplify_text_chunk_refused c m tr Href) as (cause & m' & E).
    cbn zeta in E. rewrite E.
    match goal with
    | |- context [process_sub_chunks _ acc ?w1] =>
        destruct (process_sub_chunks_refused (chunk_text c 8000) Href acc w1)
          as (frs & w2 & Hsub & Hlen1 & Hall1)
    end.
    rewrite Hsub.
    destruct (IH (i + 1) (acc ++ frs) w2) as (out & w' & Hrun & Hlen & Hall).
    exists (frs ++ out), w'. rewrite Hrun, <- app_assoc.
    split; [reflexivity|].
    split; [rewrite length_app, Hlen1, Hlen; reflexivity|].
    apply Forall_app; now split.
Qed.

(** The main loop on a list of chunks in two parts. *)
Lemma process_chunks_from_app l1 :
  forall l2 i acc w,
    process_chunks_from i (l1 ++ l2) acc w
    = match process_chunks_from i l1 acc w with
      | (inr acc', w1) =>
          process_chunks_from (i + Z.of_nat (List.length l1)) l2 acc' w1
      | (inl e, w1) => (inl e, w1)
      end.
Proof.
  induction l1 as [|c l1 IH]; intros l2 i acc w.
  - cbn [app process_chunks_from ret List.length Z.of_nat].
    now rewrite Z.add_0_r.
  - rewrite <- app_comm_cons, !process_chunks_from_cons.
    replace (i + Z.of_nat (List.length (c :: l1)))
      with (i + 1 + Z.of_nat (List.length l1)) by (cbn [List.length]; lia).
    destruct (simplify_text_chunk c (paced i w)) as [[e|t] w1].
    + destruct (process_sub_chunks (chunk_text c 8000) acc w1) as [[e'|a] w2];
        [reflexivity|apply IH].
    + apply IH.
Qed.

End PipelineOutcomes.

(** X10. On a backend that answers every call the pipeline gives exactly
    one fragment for each chunk, and the generation calls it makes are one
    for each chunk, in the order of the chunks, each with the simplification
    prompt of its chunk (no retry and no fallback call). *)
Theorem pipeline_all_answered `{G : GenerativeModel} `{R : Runtime}
    (chunks : list str) (b : backend) (tr : list event) :
  always_answers G ->
  exists out w',
    process_chunks_with_rate_limit chunks (mk_world (Some b) tr) = (inr out, w')
    /\ List.length out = List.length chunks
    /\ generate_prompts (trace w')
       = generate_prompts tr ++ map simplify_prompt chunks.
Proof.
  intros Hans.
  destruct (process_chunks_from_answered chunks Hans 1 [] b tr)
    as (out & b' & tr' & Hrun & Hlen & Hprompts).
  exists out, (mk_world (Some b') tr'). now split.
Qed.

Lemma pipeline_all_answered_witness :
  exists out w',
    process_chunks_with_rate_limit (G := counting_model) (R := sample_runtime)
      [lit "first part"; lit "second part"] counting_world = (inr out, w')
    /\ List.length out = 2%nat
    /\ generate_prompts (trace w')
       = [] ++ map simplify_prompt [lit "first part"; lit "second part"].
Proof.
  apply (pipeline_all_answered (G := counting_model) (R := sample_runtime)
           [lit "first part"; lit "second part"]
           (0%nat : @backend counting_model) []).
  intros p n. eexists. reflexivity.
Defined.

(** X11. On a backend that refuses every call (or without a model) the
    pipeline still returns: its output is one error marker for each
    sub-chunk the chunks have with bound 8000, and nothing else. *)
Theorem pipeline_all_refused `{G : GenerativeModel} `{R : Runtime}
    (chunks : list str) (w : World) :
  always_refuses G ->
  exists out w',
    process_chunks_with_rate_limit chunks w = (inr out, w')
    /\ List.length out = sub_chunk_total chunks
    /\ Forall (fun f => exists future_at cause,
                  f = error_marker (RetryError future_at cause)) out.
Proof.
  intros Href.
  destruct (process_chunks_from_refused chunks Href 1 [] w)
    as (out & w' & Hrun & Hlen & Hall).
  exists out, w'. now split.
Qed.

Lemma pipeline_all_refused_witness :
  exists out w',
    process_chunks_with_rate_limit (G := down_model) (R := sample_runtime)
      [lit "first part"; lit ""; lit "third part"] down_world = (inr out, w')
    /\ List.length out
       = sub_chunk_total [lit "first part"; lit ""; lit "third part"]
    /\ Forall (fun f => exists future_at cause,
                  f = error_marker (RetryError future_at cause)) out.
Proof.
  apply (pipeline_all_refused (G := down_model) (R := sample_runtime)
           [lit "first part"; lit ""; lit "third part"] down_world).
  intros p b. eexists. reflexivity.
Defined.

(** X12. The output of the pipeline is never longer than the fan-out of its
    input: one fragment for a chunk without sub-chunks or with one, and
    otherwise as many as the chunk has sub-chunks with bound 8000. *)
Theorem pipeline_fan_out_bound `{G : GenerativeModel} `{R : Runtime}
    (chunks : list str) (w : World) :
  exists out,
    fst (process_chunks_with_rate_limit chunks w) = inr out
    /\ (List.length out <= fan_out chunks)%nat.
Proof.
  destruct (process_chunks_from_run chunks 1 [] w) as (out & w' & Hrun & Hspec).
  exists out. unfold process_chunks_with_rate_limit. rewrite Hrun.
  split; [reflexivity|]. eapply fan_out_bound; eassumption.
Qed.

(** X13. Later chunks do not touch earlier fragments: the output for the
    chunks [l1] is a prefix of the output for [l1 ++ l2], from the same
    world. *)
Theorem pipeline_output_prefix `{G : GenerativeModel} `{R : Runtime}
    (l1 l2 : list str) (w : World) :
  exists out1 out2,
    fst (process_chunks_with_rate_limit l1 w) = inr out1
    /\ fst (process_chunks_with_rate_limit (l1 ++ l2) w) = inr (out1 ++ out2).
Proof.
  unfold process_chunks_with_rate_limit.
  rewrite process_chunks_from_app.
  destruct (process_chunks_from_run l1 1 [] w) as (out1 & w1 & Hrun1 & _).
  rewrite Hrun1.
  destruct (process_chunks_from_run l2 (1 + Z.of_nat (List.length l1))
              ([] ++ out1) w1) as (out2 & w2 & Hrun2 & _).
  rewrite Hrun2. exists out1, out2. split; reflexivity.
Qed.

(** ** More on the endpoints *)

Section EndpointMore.

Context {G : GenerativeModel} {R : Runtime} {I : Ingestion}.

(** The body of [/simplify] on an upload whose text is extracted and not
    blank: the pipeline on the chunks of the text, after the ingestion. *)
Lemma simplify_document_body_accepts file text b tr :
  extracted file text -> strip text <> [] ->
  exists ingest,
    forallb is_extraction ingest = true
    /\ generate_calls ingest = 0%nat
    /\ generate_prompts ingest = []
    /\ simplify_document_body file (mk_world (Some b) tr)
       = match process_chunks_with_rate_limit
                 (chunk_text text default_chunk_size)
                 (mk_world (Some b) (tr ++ ingest)) with
         | (inr out, w') => (inr (text, join blank_line out), w')
         | (inl e, w') => (inl e, w')
         end.
Proof.
  intros Hex Hne.
  unfold simplify_document_body. cbn [model].
  unfold bind at 1, emit at 1. cbn [model trace].
  unfold bind at 1, emit at 1. cbn [model trace].
  unfold bind at 1.
  destruct Hex as [pages Hpdf Hread | text Htxt Hdec | Htxt Hdec].
  - rewrite Hpdf, str_eqb_refl.
    unfold read_pdf_file, try_except, bind at 1, emit, ret. cbn [model trace].
    rewrite Hread, (str_eqb_neq _ _ Hne), <- !app_assoc.
    unfold bind. cbn [app].
    exists [ReadUpload; DetectType; ExtractPdf]. repeat split.
  - rewrite Htxt.
    change (str_eqb (lit "text/plain") (lit "application/pdf")) with false.
    rewrite str_eqb_refl.
    unfold bind at 1, emit, ret. cbn [model trace].
    rewrite Hdec, (str_eqb_neq _ _ Hne), <- !app_assoc.
    unfold bind. cbn [app].
    exists [ReadUpload; DetectType; DecodeText]. repeat split.
  - rewrite Htxt.
    change (str_eqb (lit "text/plain") (lit "application/pdf")) with false.
    rewrite str_eqb_refl.
    unfold bind at 1, emit, ret, decode_latin1. cbn [model trace].
    rewrite Hdec, (str_eqb_neq _ _ Hne), <- !app_assoc.
    unfold bind. cbn [app].
    exists [ReadUpload; DetectType; DecodeText]. repeat split.
Qed.

End EndpointMore.

Section EndpointInversion.

Context {G : GenerativeModel} {R : Runtime} {I : Ingestion}.

Lemma str_eqb_strip_false text : str_eqb (strip text) [] = false -> strip text <> [].
Proof. intros H E. rewrite E in H. discriminate. Qed.

(** The tail of the body of [/simplify], from the document text on. *)
Lemma simplify_tail_success text w orig simp w' :
  (if str_eqb (strip text) [] then
     raise (HTTPException 400 (lit "The uploaded file is empty"))
   else
     bind (process_chunks_with_rate_limit (chunk_text text default_chunk_size))
          (fun simplified_chunks =>
             ret (text, join blank_line simplified_chunks))) w
  = (inr (orig, simp), w') ->
  orig = text /\ strip text <> [].
Proof.
  destruct (str_eqb (strip text) []) eqn:Hs; [discriminate|].
  unfold bind, ret.
  destruct (process_chunks_with_rate_limit _ w) as [[e|out] w1];
    [discriminate|].
  intros [= <- _ _]. split; [reflexivity|now apply str_eqb_strip_false].
Qed.

Lemma simplify_document_body_success file w orig simp w' :
  simplify_document_body file w = (inr (orig, simp), w') ->
  model w <> None /\ extracted file orig /\ strip orig <> [].
Proof.
  unfold simplify_document_body. destruct (model w) as [b|] eqn:Hm;
    [|discriminate].
  intros H. split; [discriminate|].
  unfold bind at 1, emit at 1 in H. cbn [model trace] in H.
  unfold bind at 1, emit at 1 in H. cbn [model trace] in H.
  unfold bind at 1 in H.
  destruct (str_eqb (from_buffer file) (lit "application/pdf")) eqn:Hpdf.
  - apply str_eqb_eq in Hpdf.
    unfold read_pdf_file, try_except, bind at 1, emit, ret, raise in H.
    cbn [model trace] in H.
    destruct (pdf_pages file) as [e|pages] eqn:Hread; [discriminate|].
    apply simplify_tail_success in H as [-> Hne].
    split; [now apply extracted_pdf|exact Hne].
  - destruct (str_eqb (from_buffer file) (lit "text/plain")) eqn:Htxt;
      [|discriminate].
    apply str_eqb_eq in Htxt.
    unfold bind at 1, emit, ret in H. cbn [model trace] in H.
    destruct (decode_utf8 file) as [text|] eqn:Hdec.
    + apply simplify_tail_success in H as [-> Hne].
      split; [now apply extracted_utf8|exact Hne].
    + unfold decode_latin1 in H.
      apply simplify_tail_success in H as [-> Hne].
      split; [now apply extracted_latin1|exact Hne].
Qed.

End EndpointInversion.

(** X14. Once the text of an upload is extracted and not blank, [/simplify]
    answers 200 whatever the backend does afterwards: after its ingestion
    steps it runs the pipeline on the chunks of the text with the default
    bound, and it returns the original text unchanged and the fragments of
    that run joined by blank lines. *)
Theorem accepted_upload_answers_200 `{G : GenerativeModel} `{R : Runtime}
    `{I : Ingestion}
    (file : list byte) (text : str) (b : backend) (tr : list event) :
  extracted file text -> strip text <> [] ->
  exists ingest out w',
    forallb is_extraction ingest = true
    /\ process_chunks_with_rate_limit (chunk_text text default_chunk_size)
         (mk_world (Some b) (tr ++ ingest)) = (inr out, w')
    /\ simplify_document file (mk_world (Some b) tr)
       = (inr (text, join blank_line out), w')
    /\ response_status (fst (simplify_document file (mk_world (Some b) tr)))
       = 200.
Proof.
  intros Hex Hne.
  destruct (simplify_document_body_accepts file text b tr Hex Hne)
    as (ingest & Hing & _ & _ & Hbody).
  destruct (process_chunks_from_run (chunk_text text default_chunk_size) 1 []
              (mk_world (Some b) (tr ++ ingest))) as (out & w' & Hrun & _).
  unfold process_chunks_with_rate_limit in Hbody |- *. rewrite Hrun in Hbody.
  exists ingest, out, w'. unfold simplify_document, try_except. rewrite Hbody.
  repeat split; assumption.
Qed.

Lemma accepted_upload_answers_200_witness :
  exists ingest out w',
    forallb is_extraction ingest = true
    /\ process_chunks_with_rate_limit (G := down_model) (R := sample_runtime)
         (chunk_text (lit "Hi all") default_chunk_size)
         (mk_world (Some (tt : @backend down_model)) ([] ++ ingest))
       = (inr out, w')
    /\ simplify_document (G := down_model) (R := sample_runtime)
         (I := ascii_text_ingestion) hi_all
         (mk_world (Some (tt : @backend down_model)) [])
       = (inr (lit "Hi all", join blank_line out), w')
    /\ response_status
         (fst (simplify_document (G := down_model) (R := sample_runtime)
                 (I := ascii_text_ingestion) hi_all
                 (mk_world (Some (tt : @backend down_model)) []))) = 200.
Proof.
  apply (accepted_upload_answers_200 (G := down_model) (R := sample_runtime)
           (I := ascii_text_ingestion) hi_all (lit "Hi all")
           (tt : @backend down_model) []).
  - apply (extracted_utf8 (I := ascii_text_ingestion) hi_all (lit "Hi all"));
      reflexivity.
  - vm_compute. discriminate.
Defined.

(** X15. [/simplify] answers 200 only for an upload it could take: the
    model is there, the type is PDF or plain text and its text could be
    extracted, and the original text it returns is that text and is not
    blank. *)
Theorem success_needs_accepted_upload `{G : GenerativeModel} `{R : Runtime} `{I : Ingestion}
    (file : list byte) (w w' : World) (orig simp : str) :
  simplify_document file w = (inr (orig, simp), w') ->
  model w <> None /\ extracted file orig /\ strip orig <> [].
Proof.
  unfold simplify_document, try_except.
  destruct (simplify_document_body file w) as [[e|[o s]] w1] eqn:Hbody;
    [discriminate|].
  intros [= <- <- <-]. exact (simplify_document_body_success _ _ _ _ _ Hbody).
Qed.

Lemma success_needs_accepted_upload_witness :
  model counting_world <> None
  /\ extracted (I := ascii_text_ingestion) hi_all (lit "Hi all")
  /\ strip (lit "Hi all") <> [].
Proof.
  apply (success_needs_accepted_upload (G := counting_model) (R := sample_runtime)
           (I := ascii_text_ingestion) hi_all counting_world
           (snd (simplify_document (G := counting_model) (R := sample_runtime)
                   (I := ascii_text_ingestion) hi_all counting_world))
           (lit "Hi all") (lit "plain words 0")).
  vm_compute. reflexivity.
Defined.

(** X16. An upload whose text is extracted, not blank and shorter than the
    default bound, when the backend answers the call for it: [/simplify]
    makes, after its ingestion steps, exactly one generation call and no
    sleep; the prompt of the call is the simplification prompt of the
    white-space normalised text, and the answer to it is returned as the
    simplified text beside the original text. *)
Theorem short_upload_one_call `{G : GenerativeModel} `{R : Runtime}
    `{I : Ingestion}
    (file : list byte) (text answer : str) (b b' : backend)
    (tr : list event) :
  let p := simplify_prompt (join space (split text)) in
  extracted file text -> strip text <> [] -> len text + 1 <= 15000 ->
  generate_content p b = (inr answer, b') ->
  exists ingest,
    forallb is_extraction ingest = true
    /\ simplify_document file (mk_world (Some b) tr)
       = (inr (text, answer),
          mk_world (Some b') (tr ++ ingest ++ [GenerateCall p])).
Proof.
  intros p Hex Hne Hfit Hg.
  destruct (simplify_document_body_accepts file text b tr Hex Hne)
    as (ingest & Hing & _ & _ & Hbody).
  unfold default_chunk_size in Hbody.
  rewrite (chunk_text_fits text 15000 Hfit Hne) in Hbody.
  unfold process_chunks_with_rate_limit in Hbody.
  rewrite process_chunks_from_cons in Hbody.
  change (paced 1 ?w) with w in Hbody.
  rewrite (simplify_text_chunk_first (join space (split text)) (Some b)
             (tr ++ ingest) answer (Some b')) in Hbody
    by (cbn [call_model]; fold p; now rewrite Hg).
  cbn [process_chunks_from ret app join] in Hbody.
  exists ingest. split; [exact Hing|].
  unfold simplify_document, try_except. rewrite Hbody, <- app_assoc.
  reflexivity.
Qed.

Lemma short_upload_one_call_witness :
  exists ingest,
    forallb is_extraction ingest = true
    /\ simplify_document (G := counting_model) (R := sample_runtime)
         (I := ascii_text_ingestion) hi_all counting_world
       = (inr (lit "Hi all", lit "plain words 0"),
          mk_world (Some (1%nat : @backend counting_model))
            ([] ++ ingest
                ++ [GenerateCall
                      (simplify_prompt (join space (split (lit "Hi all"))))])).
Proof.
  apply (short_upload_one_call (G := counting_model) (R := sample_runtime)
           (I := ascii_text_ingestion) hi_all (lit "Hi all")
           (lit "plain words 0") (0%nat : @backend counting_model)
           (1%nat : @backend counting_model) []).
  - apply (extracted_utf8 (I := ascii_text_ingestion) hi_all (lit "Hi all"));
      reflexivity.
  - vm_compute. discriminate.
  - vm_compute. discriminate.
  - reflexivity.
Defined.

Section PdfFacts.

Lemma strip_eqb_blank text : str_eqb (strip text) [] = true <-> blank text.
Proof.
  rewrite <- strip_nil. split.
  - apply str_eqb_eq.
  - intros ->. reflexivity.
Qed.

Lemma join_nil sep l : Forall (fun x => x <> []) l -> join sep l = [] -> l = [].
Proof.
  intros Hl. destruct Hl as [|x rest Hx _]; [reflexivity|].
  simpl. destruct rest; intros H; [congruence|].
  destruct x; [congruence|discriminate].
Qed.

Lemma nonblank_pages_nil pages :
  join blank_line (filter (fun text => negb (str_eqb (strip text) [])) pages) = []
  <-> Forall blank pages.
Proof.
  split.
  - intros H. apply join_nil in H.
    + induction pages as [|p pages IH]; [constructor|].
      simpl in H. destruct (str_eqb (strip p) []) eqn:Hp; simpl in H;
        [|discriminate].
      constructor; [now apply strip_eqb_blank|now apply IH].
    + apply Forall_forall. intros x Hx. apply filter_In in Hx as [_ Hx].
      intros ->. discriminate.
  - intros H. induction H as [|p pages Hp _ IH]; [reflexivity|].
    simpl. apply strip_eqb_blank in Hp. rewrite Hp. simpl. exact IH.
Qed.

Lemma nonblank_pages_kept pages :
  Forall (fun p => ~ blank p) pages ->
  filter (fun text => negb (str_eqb (strip text) [])) pages = pages.
Proof.
  induction 1 as [|p pages Hp _ IH]; [reflexivity|].
  simpl. destruct (str_eqb (strip p) []) eqn:E.
  - apply strip_eqb_blank in E. contradiction.
  - simpl. now rewrite IH.
Qed.

End PdfFacts.

(** X17. [read_pdf_file] makes no generation call; whatever the PDF reader
    raises comes out as the same [HTTPException] 400; and of a readable PDF
    the blank pages are dropped: the text is empty exactly when every page
    is blank, and it is the pages joined by blank lines when none is. *)
Theorem read_pdf_file_outcomes `{G : GenerativeModel} `{I : Ingestion}
    (file_content : list byte) (w : World) :
  let r := read_pdf_file file_content w in
  generate_calls (trace (snd r)) = generate_calls (trace w)
  /\ match pdf_pages file_content with
     | inl _ =>
         fst r = inl (HTTPException 400
           (lit "Could not read the PDF document. Please ensure it's a valid PDF file."))
     | inr pages =>
         exists text,
           fst r = inr text
           /\ (text = [] <-> Forall blank pages)
           /\ (Forall (fun p => ~ blank p) pages ->
               text = join blank_line pages)
     end.
Proof.
  cbn zeta. unfold read_pdf_file, try_except, bind, emit, ret, raise.
  cbn [model trace].
  destruct (pdf_pages file_content) as [e|pages]; cbn [fst snd trace];
    rewrite generate_calls_app; (split; [cbn; lia|]); [reflexivity|].
  eexists. split; [reflexivity|]. split.
  - apply nonblank_pages_nil.
  - intros Hp. now rewrite nonblank_pages_kept.
Qed.

Lemma read_pdf_file_outcomes_witness :
  fst (read_pdf_file (G := counting_model) (I := scanned_pdf_ingestion) pdf_header
         counting_world) = inr [].
Proof.
  pose proof (read_pdf_file_outcomes (G := counting_model)
                (I := scanned_pdf_ingestion) pdf_header counting_world) as [_ H].
  cbn [pdf_pages scanned_pdf_ingestion] in H.
  destruct H as (text & Hr & Hblank & _).
  rewrite Hr. f_equal. apply Hblank.
  repeat constructor.
Defined.

(** X18. When [/chat] fails, its three generation calls have raised and its
    response is a 500 whose detail is the printed [RetryError]: the address
    of the future of the last attempt and the class of the exception the
    third call raised, and nothing of the message of that exception. *)
Theorem chat_failure_detail `{G : GenerativeModel} `{R : Runtime}
    (message : str) (document_content : option str) (m : option backend)
    (tr : list event) (e : exn) :
  let p := simplify_prompt (chat_prompt message document_content) in
  let a1 := call_model p m in
  let a2 := call_model p (snd a1) in
  let a3 := call_model p (snd a2) in
  let r := chat_with_document message document_content (mk_world m tr) in
  fst r = inl e ->
  exists e1 e2 e3,
    fst a1 = inl e1 /\ fst a2 = inl e2 /\ fst a3 = inl e3
    /\ e = HTTPException 500
             (lit "RetryError[<Future at "
                ++ hex_of_address (future_address (trace (snd r)))
                ++ lit " state=finished raised " ++ class_name e3 ++ lit ">]").
Proof.
  intros p a1 a2 a3 r. subst r a3 a2 a1.
  unfold chat_with_document, try_except, bind, ret, raise.
  destruct (call_model p m) as [[e1|t1] m1] eqn:H1; cbn [fst snd].
  2:{ rewrite (simplify_text_chunk_first _ _ _ _ _ H1). discriminate. }
  destruct (call_model p m1) as [[e2|t2] m2] eqn:H2; cbn [fst snd].
  2:{ rewrite (simplify_text_chunk_second _ _ _ _ _ _ _ H1 H2). discriminate. }
  destruct (call_model p m2) as [[e3|t3] m3] eqn:H3; cbn [fst snd].
  2:{ rewrite (simplify_text_chunk_third _ _ _ _ _ _ _ _ _ H1 H2 H3).
      discriminate. }
  rewrite (simplify_text_chunk_exhausted _ _ _ _ _ _ _ _ _ H1 H2 H3).
  cbn [fst snd trace]. intros [= <-].
  exists e1, e2, e3. repeat split.
Qed.

Lemma chat_failure_detail_witness :
  exists e1 e2 e3 : exn,
    inl (PyException (lit "ServiceUnavailable") (lit "503 unavailable"))
    = (inl e1 : exn + str)
    /\ inl (PyException (lit "ServiceUnavailable") (lit "503 unavailable"))
       = (inl e2 : exn + str)
    /\ inl (PyException (lit "ServiceUnavailable") (lit "503 unavailable"))
       = (inl e3 : exn + str)
    /\ HTTPException 500
         (lit "RetryError[<Future at 0x7f3a5c0d2e80 state=finished raised ServiceUnavailable>]")
       = HTTPException 500
           (lit "RetryError[<Future at "
              ++ hex_of_address 0x7f3a5c0d2e80
              ++ lit " state=finished raised " ++ class_name e3 ++ lit ">]").
Proof.
  apply (chat_failure_detail (G := down_model) (R := sample_runtime)
           (lit "What is a tort?") None (Some (tt : @backend down_model)) []).
  vm_compute. reflexivity.
Defined.

(** X19. When the backend answers the first call, [/chat] returns that
    answer after exactly one generation call and no sleep; the prompt of
    the call is the chat prompt wrapped in the simplification prompt of the
    client. *)
Theorem chat_answered_at_once `{G : GenerativeModel} `{R : Runtime}
    (message : str) (document_content : option str) (b b' : backend)
    (tr : list event) (answer : str) :
  let p := simplify_prompt (chat_prompt message document_content) in
  generate_content p b = (inr answer, b') ->
  chat_with_document message document_content (mk_world (Some b) tr)
  = (inr answer, mk_world (Some b') (tr ++ [GenerateCall p])).
Proof.
  intros p Hg. unfold chat_with_document, try_except, bind, ret.
  rewrite (simplify_text_chunk_first (chat_prompt message document_content)
             (Some b) tr answer (Some b')).
  - reflexivity.
  - cbn [call_model]. fold p. now rewrite Hg.
Qed.

Lemma chat_answered_at_once_witness :
  chat_with_document (G := counting_model) (R := sample_runtime) (lit "What is a tort?") None
    counting_world
  = (inr (lit "plain words 0"),
     mk_world (Some (1%nat : @backend counting_model))
       ([] ++ [GenerateCall
                 (simplify_prompt (chat_prompt (lit "What is a tort?") None))])).
Proof.
  apply (chat_answered_at_once (G := counting_model) (R := sample_runtime) (lit "What is a tort?")
           None (0%nat : @backend counting_model)
           (1%nat : @backend counting_model) [] (lit "plain words 0")).
  reflexivity.
Defined.
